(** * KafkaJS instrumentation: span lifecycle, propagation and finalizer

    A shallow embedding of [src/instrumentations/external/kafkajs/kafkajs.ts]
    and of the carrier adapter [bufferTextMapGetter] (propagtor.ts).

    The instrumentation is effectful JavaScript.  Its effects are made
    explicit by threading a [World] through every function: the spans the
    tracer has handed out (each one recording the calls it received, in
    order), the ambient active context, the diagnostic log, the invocations
    of the wrapped original function, and the store of (mutable) producer
    message objects and header objects.  Exceptions are a [Completion];
    promises are represented by the way they eventually settle. *)

From Stdlib Require Import String List ZArith Lia DecimalString.
From stdpp Require Import gmap strings list fin_maps.

Open Scope string_scope.
Open Scope list_scope.

(** ** JavaScript values *)

(** Values that can be thrown, resolved or rejected.  An object carries an
    address (its identity) and its own properties. *)
#[warnings="-register-all"]
Inductive JsValue :=
| JsUndefined
| JsNull
| JsBool (b : bool)
| JsNumber (z : Z)
| JsString (s : string)
| JsObject (addr : nat) (own : list (string * JsValue))
| JsFunction (addr : nat).

(** The [typeof] operator. *)
Definition typeof (v : JsValue) : string :=
  match v with
  | JsUndefined => "undefined"
  | JsNull => "object"
  | JsBool _ => "boolean"
  | JsNumber _ => "number"
  | JsString _ => "string"
  | JsObject _ _ => "object"
  | JsFunction _ => "function"
  end.

(** ToBoolean, as used by [if (e)].  Numbers are integers here, so the one
    falsy number is [0] ([NaN] is not represented). *)
Definition truthy (v : JsValue) : bool :=
  match v with
  | JsUndefined | JsNull => false
  | JsBool b => b
  | JsNumber z => negb (z =? 0)%Z
  | JsString s => negb (String.eqb s "")
  | JsObject _ _ | JsFunction _ => true
  end.

(** Normal or abrupt completion of a synchronous call. *)
Inductive Completion (A : Type) :=
| Normal (a : A)
| Throw (e : JsValue).
Arguments Normal {A} a.
Arguments Throw {A} e.

Fixpoint assoc {A : Type} (k : string) (l : list (string * A)) : option A :=
  match l with
  | [] => None
  | (k', v) :: l' => if String.eqb k k' then Some v else assoc k l'
  end.

(** The [TypeError] raised by [ToObject] on [null] and [undefined]. *)
Definition TypeError_ToObject : JsValue :=
  JsObject 0 [("message", JsString "Cannot convert undefined or null to object")].

(** [Object.prototype.hasOwnProperty.call(v, key)]: [ToObject(v)] throws on
    [null] and [undefined]; the wrappers of primitives have no own property
    named by the keys used here. *)
Definition hasOwnProperty_call (v : JsValue) (key : string) : Completion bool :=
  match v with
  | JsUndefined | JsNull => Throw TypeError_ToObject
  | JsObject _ own => Normal (bool_decide (is_Some (assoc key own)))
  | _ => Normal false
  end.

(** Property read [v.key] on an object with own data properties. *)
Definition get_property (v : JsValue) (key : string) : JsValue :=
  match v with
  | JsObject _ own => default JsUndefined (assoc key own)
  | _ => JsUndefined
  end.

(** ** Message headers and the carrier adapter *)

(** An element of a header given as an array. *)
Inductive HeaderItem :=
| HiString (s : string)
| HiBuffer (bytes : list Byte.byte).

(** A header value of KafkaJS' [IHeaders]: a string, a buffer, an array of
    strings and buffers, or a key that is present with the value
    [undefined]. *)
Inductive HeaderValue :=
| HvString (s : string)
| HvBuffer (bytes : list Byte.byte)
| HvArray (items : list HeaderItem)
| HvUndefined.

(** A header object is a plain object: its own properties map string keys
    to header values, and its prototype is [Object.prototype]. *)
Abbreviation Headers := (gmap string HeaderValue).

(** The methods a plain object inherits from [Object.prototype]. *)
Definition Object_prototype_methods : list string :=
  ["constructor"; "__defineGetter__"; "__defineSetter__"; "hasOwnProperty";
   "__lookupGetter__"; "__lookupSetter__"; "isPrototypeOf";
   "propertyIsEnumerable"; "toString"; "valueOf"; "toLocaleString"].

(** [Function.prototype.toString()] of a built-in function, as V8 prints
    it. *)
Definition native_function_toString (name : string) : string :=
  "function " ++ name ++ "() { [native code] }".

(** [Object.prototype[key]?.toString()]: what the property read finds on
    the prototype when the object has no own property [key].  The methods
    are functions ([constructor] is the function [Object]); [__proto__] is
    an accessor that gives the prototype itself, an object. *)
Definition inherited_toString (key : string) : option string :=
  if String.eqb key "constructor" then Some (native_function_toString "Object")
  else if bool_decide (key ∈ Object_prototype_methods)
  then Some (native_function_toString key)
  else if String.eqb key "__proto__" then Some "[object Object]"
  else None.

Section Getter.
(** [Buffer.prototype.toString()], the UTF-8 decoding of the bytes. *)
Variable Buffer_toString : list Byte.byte -> string.

Definition HeaderItem_toString (i : HeaderItem) : string :=
  match i with
  | HiString s => s
  | HiBuffer b => Buffer_toString b
  end.

(** [value?.toString()]; an array prints its elements joined by commas. *)
Definition HeaderValue_toString (v : HeaderValue) : option string :=
  match v with
  | HvString s => Some s
  | HvBuffer b => Some (Buffer_toString b)
  | HvArray items => Some (String.concat "," (map HeaderItem_toString items))
  | HvUndefined => None
  end.

(** [get(carrier, key) { return carrier?.[key]?.toString(); }]
    The property read [carrier[key]] finds an own property first and goes
    to the prototype otherwise. *)
Definition bufferTextMapGetter_get (carrier : option Headers) (key : string)
  : option string :=
  match carrier with
  | None => None
  | Some c =>
      match c !! key with
      | Some v => HeaderValue_toString v
      | None => inherited_toString key
      end
  end.

(** [keys(carrier) { return carrier ? Object.keys(carrier) : []; }]
    The own keys, each once; they come in the order of the map, the
    enumeration order of [Object.keys] is not represented. *)
Definition bufferTextMapGetter_keys (carrier : option Headers) : list string :=
  match carrier with
  | None => []
  | Some c => (map_to_list c).*1
  end.
End Getter.

(** ** Spans, contexts and the world *)

Inductive SpanKind := PRODUCER | CONSUMER.

Inductive SpanStatusCode := UNSET | OK | ERROR.

(** What identifies a span: a span started by this tracer (its index) or a
    remote span decoded from propagation data. *)
Inductive SpanContext :=
| LocalSpan (id : nat)
| RemoteSpan (traceId spanId : string).

(** An immutable context: the active span, if any, and whatever other
    entries (baggage and the like) it carries. *)
Record Context := {
  ctxSpan : option SpanContext;
  ctxValues : list (string * string);
}.

Definition ROOT_CONTEXT : Context := {| ctxSpan := None; ctxValues := [] |}.

(** The calls a span object receives after it has been started. *)
Inductive SpanCall :=
| CallSetAttribute (key : string) (value : JsValue)
| CallSetStatus (code : SpanStatusCode) (message : JsValue)
| CallEnd.

(** A span as the tracer sees it: what [startSpan] was given, the parent
    taken from the context it was started under, and the calls received
    since, oldest first. *)
Record SpanData := {
  spName : string;
  spKind : SpanKind;
  spAttributes : list (string * string);
  spLinks : list SpanContext;
  spParent : option SpanContext;
  spCalls : list SpanCall;
}.

(** ** Broker data *)

(** An outgoing message object; its header object is held by reference. *)
Record Message := {
  msgKey : option string;
  msgValue : option string;
  msgHeaders : option nat;
}.

#[global] Instance Message_inhabited : Inhabited Message :=
  populate {| msgKey := None; msgValue := None; msgHeaders := None |}.

(** [ProducerRecord]: the argument of [send]; messages by reference. *)
Record ProducerRecord := {
  prTopic : string;
  prMessages : list nat;
}.

Record TopicMessages := {
  tmTopic : string;
  tmMessages : list nat;
}.

(** [ProducerBatch]: the argument of [sendBatch]. *)
Record ProducerBatch := {
  pbTopicMessages : option (list TopicMessages);
}.

(** An incoming message; the instrumentation only reads it. *)
Record KafkaMessage := {
  kmKey : option string;
  kmValue : option string;
  kmHeaders : option Headers;
}.

Record EachMessagePayload := {
  empTopic : string;
  empPartition : nat;
  empMessage : KafkaMessage;
}.

Record Batch := {
  bTopic : string;
  bPartition : nat;
  bMessages : list KafkaMessage;
}.

Record EachBatchPayload := {
  ebpBatch : Batch;
}.

(** The arguments an original (wrapped) function is applied to. *)
Inductive OriginalArgs :=
| ArgsSend (record : ProducerRecord)
| ArgsSendBatch (batch : ProducerBatch)
| ArgsEachMessage (payload : EachMessagePayload)
| ArgsEachBatch (payload : EachBatchPayload).

(** One invocation of an original function, with the context that was
    active while it ran. *)
Record OriginalCall := {
  ocArgs : OriginalArgs;
  ocActive : Context;
}.

Record World := {
  wSpans : list SpanData;
  wActive : Context;
  wDiag : list (string * JsValue);
  wCalls : list OriginalCall;
  wMessages : gmap nat Message;
  wHeaders : gmap nat Headers;
}.

Definition set_wSpans (f : list SpanData -> list SpanData) (w : World) : World :=
  {| wSpans := f (wSpans w); wActive := wActive w; wDiag := wDiag w;
     wCalls := wCalls w; wMessages := wMessages w; wHeaders := wHeaders w |}.

Definition set_wActive (c : Context) (w : World) : World :=
  {| wSpans := wSpans w; wActive := c; wDiag := wDiag w;
     wCalls := wCalls w; wMessages := wMessages w; wHeaders := wHeaders w |}.

Definition set_wDiag (f : list (string * JsValue) -> list (string * JsValue))
    (w : World) : World :=
  {| wSpans := wSpans w; wActive := wActive w; wDiag := f (wDiag w);
     wCalls := wCalls w; wMessages := wMessages w; wHeaders := wHeaders w |}.

Definition set_wCalls (f : list OriginalCall -> list OriginalCall) (w : World) : World :=
  {| wSpans := wSpans w; wActive := wActive w; wDiag := wDiag w;
     wCalls := f (wCalls w); wMessages := wMessages w; wHeaders := wHeaders w |}.

Definition set_wMessages (f : gmap nat Message -> gmap nat Message) (w : World) : World :=
  {| wSpans := wSpans w; wActive := wActive w; wDiag := wDiag w;
     wCalls := wCalls w; wMessages := f (wMessages w); wHeaders := wHeaders w |}.

Definition set_wHeaders (f : gmap nat Headers -> gmap nat Headers) (w : World) : World :=
  {| wSpans := wSpans w; wActive := wActive w; wDiag := wDiag w;
     wCalls := wCalls w; wMessages := wMessages w; wHeaders := f (wHeaders w) |}.

(** ** Effects: state passing *)

Definition M (A : Type) : Type := World -> A * World.

Definition ret {A} (a : A) : M A := fun w => (a, w).

Definition bind {A B} (m : M A) (k : A -> M B) : M B :=
  fun w => let (a, w1) := m w in k a w1.

Notation "'let!' x ':=' m 'in' k" := (bind m (fun x => k))
  (at level 10, x name, m at level 100, k at level 200).
Notation "'run!' m 'in' k" := (bind m (fun _ => k))
  (at level 10, m at level 100, k at level 200).

(** A call that may throw, in sequence with what follows it: when the
    call throws, what follows is skipped and the exception goes on. *)
Definition bind_normal {A B} (m : M (Completion A)) (k : A -> M (Completion B))
  : M (Completion B) :=
  let! r := m in
  match r with
  | Normal a => k a
  | Throw e => ret (Throw e)
  end.

Notation "'let?' x ':=' m 'in' k" := (bind_normal m (fun x => k))
  (at level 10, x name, m at level 100, k at level 200).
Notation "'run?' m 'in' k" := (bind_normal m (fun _ => k))
  (at level 10, m at level 100, k at level 200).

(** [Array.prototype.map] with an effectful callback, left to right; a
    callback that throws ends the traversal. *)
Fixpoint mapM {A B} (f : A -> M (Completion B)) (l : list A)
  : M (Completion (list B)) :=
  match l with
  | [] => ret (Normal [])
  | x :: l' => let? y := f x in let? ys := mapM f l' in ret (Normal (y :: ys))
  end.

(** [Array.prototype.forEach]. *)
Fixpoint forEach {A} (f : A -> M unit) (l : list A) : M unit :=
  match l with
  | [] => ret tt
  | x :: l' => run! f x in forEach f l'
  end.

(** ** The OpenTelemetry API, as far as the instrumentation uses it

    Modelled from the documented contract of [@opentelemetry/api]: the
    tracer, span and context operations neither throw nor touch anything
    but their own part of the world. *)

(** [context.active()] *)
Definition context_active : M Context := fun w => (wActive w, w).

(** [context.with(ctx, fn)]: runs [fn] with [ctx] active and restores the
    previous active context afterwards, also when [fn] throws. *)
Definition context_with {A} (ctx : Context) (fn : M A) : M A :=
  fun w =>
    let (a, w1) := fn (set_wActive ctx w) in
    (a, set_wActive (wActive w) w1).

(** [trace.setSpan(ctx, span)] *)
Definition trace_setSpan (ctx : Context) (span : nat) : Context :=
  {| ctxSpan := Some (LocalSpan span); ctxValues := ctxValues ctx |}.

(** [trace.getSpan(ctx)?.spanContext()] *)
Definition trace_getSpanContext (ctx : Context) : option SpanContext :=
  ctxSpan ctx.

Record SpanOptions := {
  optKind : SpanKind;
  optAttributes : list (string * string);
  optLinks : list SpanContext;
}.

(** [tracer.startSpan(name, options, context)]: the context defaults to the
    active one; the span active in it becomes the parent.  The new span is
    identified by its index. *)
Definition tracer_startSpan (name : string) (options : SpanOptions)
    (context : option Context) : M nat :=
  fun w =>
    let parentContext := default (wActive w) context in
    let span := {| spName := name;
                   spKind := optKind options;
                   spAttributes := optAttributes options;
                   spLinks := optLinks options;
                   spParent := ctxSpan parentContext;
                   spCalls := [] |} in
    (length (wSpans w), set_wSpans (fun l => l ++ [span]) w).

Definition record_call (c : SpanCall) (sp : SpanData) : SpanData :=
  {| spName := spName sp; spKind := spKind sp;
     spAttributes := spAttributes sp; spLinks := spLinks sp;
     spParent := spParent sp; spCalls := spCalls sp ++ [c] |}.

Definition span_call (span : nat) (c : SpanCall) : M unit :=
  fun w => (tt, set_wSpans (alter (record_call c) span) w).

(** [span.setAttribute(key, value)] *)
Definition span_setAttribute (span : nat) (key : string) (value : JsValue) : M unit :=
  span_call span (CallSetAttribute key value).

(** [span.setStatus({ code, message })] *)
Definition span_setStatus (span : nat) (code : SpanStatusCode) (message : JsValue)
  : M unit :=
  span_call span (CallSetStatus code message).

(** [span.end()] *)
Definition span_end (span : nat) : M unit :=
  span_call span CallEnd.

(** [diag.error(message, e)] *)
Definition diag_error (message : string) (e : JsValue) : M unit :=
  fun w => (tt, set_wDiag (fun l => l ++ [(message, e)]) w).

(** [safeExecuteInTheMiddle(execute, onFinish, preventThrowingError)] of
    [@opentelemetry/instrumentation]: [onFinish] always runs, with the
    caught error or [undefined]; the error is thrown again only if it is
    truthy and [preventThrowingError] is not set. *)
Definition safeExecuteInTheMiddle {T} (execute : M (Completion T))
    (onFinish : JsValue -> option T -> M unit) (preventThrowingError : bool)
  : M (Completion (option T)) :=
  let! r := execute in
  match r with
  | Normal result =>
      run! onFinish JsUndefined (Some result) in
      ret (Normal (Some result))
  | Throw error =>
      run! onFinish error None in
      if truthy error && negb preventThrowingError
      then ret (Throw error)
      else ret (Normal None)
  end.

(** ** Promises

    A promise is represented by how it eventually settles; the world a
    promise combinator returns is the one reached once the reactions that
    are going to run have run. *)
Inductive Settlement :=
| Fulfilled (v : JsValue)
| Rejected (r : JsValue)
| Pending.

(** What an original function returns: a promise, or (its static type
    notwithstanding) a plain value. *)
Inductive Returned :=
| ReturnsPromise (p : Settlement)
| ReturnsValue (v : JsValue).

(** [Promise.resolve(x)] *)
Definition Promise_resolve (x : Returned) : Settlement :=
  match x with
  | ReturnsPromise p => p
  | ReturnsValue v => Fulfilled v
  end.

(** [p.catch(onRejected)] *)
Definition Promise_catch (p : Settlement)
    (onRejected : JsValue -> M (Completion JsValue)) : M Settlement :=
  match p with
  | Fulfilled v => ret (Fulfilled v)
  | Pending => ret Pending
  | Rejected reason =>
      let! r := onRejected reason in
      match r with
      | Normal v => ret (Fulfilled v)
      | Throw e => ret (Rejected e)
      end
  end.

(** [p.finally(onFinally)] *)
Definition Promise_finally (p : Settlement) (onFinally : M (Completion unit))
  : M Settlement :=
  match p with
  | Pending => ret Pending
  | Fulfilled _ | Rejected _ =>
      let! r := onFinally in
      match r with
      | Normal _ => ret p
      | Throw e => ret (Rejected e)
      end
  end.

(** ** Configuration *)

(** What a user hook does when called with (span, topic, message): the
    attributes it sets on the span, and the value it throws, if it throws.
    A producer hook is given the message object by reference. *)
Record HookRun := {
  hrAttributes : list (string * JsValue);
  hrThrows : option JsValue;
}.

(** [KafkaJsInstrumentationConfig] *)
Record KafkaJsInstrumentationConfig := {
  producerHook : option (nat -> string -> nat -> HookRun);
  consumerHook : option (nat -> string -> KafkaMessage -> HookRun);
  moduleVersionAttributeName : option string;
}.

(** Running a hook on a span: the hook enriches the span it is given, then
    returns or throws. *)
Definition run_hook (span : nat) (r : HookRun) : M (Completion JsValue) :=
  run! forEach (fun kv => span_setAttribute span (fst kv) (snd kv))
         (hrAttributes r) in
  match hrThrows r with
  | Some e => ret (Throw e)
  | None => ret (Normal JsUndefined)
  end.

(** An original function (the broker client's [send] or [sendBatch], the
    application's [eachMessage] or [eachBatch] handler) is a black box: all
    that matters here is how its invocation completes.  It does not touch
    the spans of the instrumentation. *)
Definition Original (A : Type) : Type := A -> Completion Returned.

(** [original.apply(this, args)]: the invocation is recorded together with
    the context active at that moment. *)
Definition apply_original {A} (tag : A -> OriginalArgs) (original : Original A)
    (args : A) : M (Completion Returned) :=
  fun w =>
    (original args,
     set_wCalls (fun l => l ++ [{| ocArgs := tag args; ocActive := wActive w |}]) w).

(** The globally registered propagator: the header fields it writes for a
    context, and the context it decodes from a carrier read through a
    getter. *)
Record TextMapPropagator := {
  inject_fields : Context -> list (string * string);
  extract_from : Context -> (string -> option string) -> list string -> Context;
}.

(** The state of the instrumentation object. *)
Record KafkaJsInstrumentation := {
  _config : KafkaJsInstrumentationConfig;
  moduleVersion : option string;
}.

(** Constants of [@opentelemetry/semantic-conventions]. *)
Module SemanticAttributes.
Definition MESSAGING_SYSTEM := "messaging.system".
Definition MESSAGING_DESTINATION := "messaging.destination".
Definition MESSAGING_DESTINATION_KIND := "messaging.destination_kind".
Definition MESSAGING_OPERATION := "messaging.operation".
End SemanticAttributes.

Module MessagingDestinationKindValues.
Definition TOPIC := "topic".
End MessagingDestinationKindValues.

Module MessagingOperationValues.
Definition PROCESS := "process".
Definition RECEIVE := "receive".
End MessagingOperationValues.

(** ** The instrumentation *)

Section Instrumentation.
Variable Buffer_toString : list Byte.byte -> string.
Variable propagator : TextMapPropagator.
Variable this : KafkaJsInstrumentation.

(** [propagation.extract(context, carrier, bufferTextMapGetter)] *)
Definition propagation_extract (context : Context) (carrier : option Headers)
  : Context :=
  extract_from propagator context
    (bufferTextMapGetter_get Buffer_toString carrier)
    (bufferTextMapGetter_keys carrier).

(** The default setter: [carrier[key] = value]. *)
Definition set_fields (fields : list (string * string)) (carrier : Headers)
  : Headers :=
  foldl (fun c kv => <[fst kv := HvString (snd kv)]> c) carrier fields.

(** [propagation.inject(context, carrier)] on the header object at
    address [carrier]. *)
Definition propagation_inject (context : Context) (carrier : nat) : M unit :=
  fun w =>
    (tt, set_wHeaders
           (fun hs => <[carrier :=
              set_fields (inject_fields propagator context) (hs !!! carrier)]> hs)
           w).

(** [message.headers = message.headers ?? {}], returning the header
    object now held by the message. *)
Definition ensure_headers (message : nat) : M nat :=
  fun w =>
    let m := wMessages w !!! message in
    match msgHeaders m with
    | Some h => (h, set_wMessages (<[message := m]>) w)
    | None =>
        let h := fresh (dom (wHeaders w)) in
        (h, set_wMessages
              (<[message := {| msgKey := msgKey m; msgValue := msgValue m;
                               msgHeaders := Some h |}]>)
              (set_wHeaders (<[h := ∅]>) w))
    end.

Definition _addModuleVersion (span : nat) : M unit :=
  match moduleVersionAttributeName (_config this) with
  | None => ret tt
  | Some name =>
      match moduleVersion this with
      | None => ret tt
      | Some version => span_setAttribute span name (JsString version)
      end
  end.

Definition _startConsumerSpan (topic : string) (message : option KafkaMessage)
    (operation : string) (context : option Context) (link : option SpanContext)
  : M (Completion nat) :=
  let! span :=
    tracer_startSpan topic
      {| optKind := CONSUMER;
         optAttributes :=
           [(SemanticAttributes.MESSAGING_SYSTEM, "kafka");
            (SemanticAttributes.MESSAGING_DESTINATION, topic);
            (SemanticAttributes.MESSAGING_DESTINATION_KIND,
             MessagingDestinationKindValues.TOPIC);
            (SemanticAttributes.MESSAGING_OPERATION, operation)];
         optLinks := match link with Some l => [l] | None => [] end |}
      context in
  run! _addModuleVersion span in
  run? match consumerHook (_config this), message with
       | Some hook, Some message =>
           safeExecuteInTheMiddle
             (run_hook span (hook span topic message))
             (fun e _ =>
                if truthy e
                then diag_error "kafkajs instrumentation: consumerHook error" e
                else ret tt)
             true
       | _, _ => ret (Normal None)
       end in
  ret (Normal span).

Definition _startProducerSpan (topic : string) (message : nat)
  : M (Completion nat) :=
  let! span :=
    tracer_startSpan topic
      {| optKind := PRODUCER;
         optAttributes :=
           [(SemanticAttributes.MESSAGING_SYSTEM, "kafka");
            (SemanticAttributes.MESSAGING_DESTINATION, topic);
            (SemanticAttributes.MESSAGING_DESTINATION_KIND,
             MessagingDestinationKindValues.TOPIC)];
         optLinks := [] |}
      None in
  run! _addModuleVersion span in
  let! headers := ensure_headers message in
  let! active := context_active in
  run! propagation_inject (trace_setSpan active span) headers in
  run? match producerHook (_config this) with
       | Some hook =>
           safeExecuteInTheMiddle
             (run_hook span (hook span topic message))
             (fun e _ =>
                if truthy e
                then diag_error "kafkajs instrumentation: producerHook error" e
                else ret tt)
             true
       | None => ret (Normal None)
       end in
  ret (Normal span).

(** The message computed by the rejection handler: the [if]/[else if]
    chain over an [errorMessage] left [undefined] unless assigned. *)
Definition errorMessage_of (reason : JsValue) : Completion JsValue :=
  if String.eqb (typeof reason) "string" then Normal reason
  else if String.eqb (typeof reason) "object" then
    match hasOwnProperty_call reason "message" with
    | Throw e => Throw e
    | Normal true => Normal (get_property reason "message")
    | Normal false => Normal JsUndefined
    end
  else Normal JsUndefined.

Definition _endSpansOnPromise (spans : list nat) (sendPromise : Returned)
  : M Settlement :=
  let! caught :=
    Promise_catch (Promise_resolve sendPromise)
      (fun reason =>
         match errorMessage_of reason with
         | Throw e => ret (Throw e)
         | Normal errorMessage =>
             run! forEach (fun span => span_setStatus span ERROR errorMessage)
                    spans in
             ret (Throw reason)
         end) in
  Promise_finally caught
    (run! forEach span_end spans in ret (Normal tt)).

(** The tail shared by the patched functions,
    [const result = original.apply(this, args);
     return instrumentation._endSpansOnPromise(spans, result);]
    given how [original.apply] completed: when it throws, the [return] is
    not reached and the exception leaves the patched function. *)
Definition finalize (spans : list nat) (result : Completion Returned)
  : M (Completion Settlement) :=
  match result with
  | Throw e => ret (Throw e)
  | Normal promise =>
      let! p := _endSpansOnPromise spans promise in
      ret (Normal p)
  end.

Definition _getProducerSendPatch (original : Original ProducerRecord)
    (record : ProducerRecord) : M (Completion Settlement) :=
  let? spans :=
    mapM (fun message => _startProducerSpan (prTopic record) message)
      (prMessages record) in
  let! origSendResult := apply_original ArgsSend original record in
  finalize spans origSendResult.

Definition _getProducerSendBatchPatch (original : Original ProducerBatch)
    (batch : ProducerBatch) : M (Completion Settlement) :=
  let messages := default [] (pbTopicMessages batch) in
  let? nested :=
    mapM (fun topicMessage =>
            mapM (fun message =>
                    _startProducerSpan (tmTopic topicMessage) message)
              (tmMessages topicMessage))
      messages in
  let spans := foldl (fun acc val => acc ++ val) [] nested in
  let! origSendResult := apply_original ArgsSendBatch original batch in
  finalize spans origSendResult.

Definition _getConsumerEachMessagePatch (original : Original EachMessagePayload)
    (payload : EachMessagePayload) : M (Completion Settlement) :=
  let propagatedContext :=
    propagation_extract ROOT_CONTEXT (kmHeaders (empMessage payload)) in
  let? span :=
    _startConsumerSpan (empTopic payload) (Some (empMessage payload))
      MessagingOperationValues.PROCESS (Some propagatedContext) None in
  let! eachMessagePromise :=
    context_with (trace_setSpan propagatedContext span)
      (apply_original ArgsEachMessage original payload) in
  finalize [span] eachMessagePromise.

Definition _getConsumerEachBatchPatch (original : Original EachBatchPayload)
    (payload : EachBatchPayload) : M (Completion Settlement) :=
  let? receivingSpan :=
    _startConsumerSpan (bTopic (ebpBatch payload)) None
      MessagingOperationValues.RECEIVE (Some ROOT_CONTEXT) None in
  let! active := context_active in
  context_with (trace_setSpan active receivingSpan)
    (let? spans :=
       mapM (fun message =>
               let propagatedContext :=
                 propagation_extract ROOT_CONTEXT (kmHeaders message) in
               let spanContext := trace_getSpanContext propagatedContext in
               let origSpanLink :=
                 match spanContext with
                 | Some sc => Some sc
                 | None => None
                 end in
               _startConsumerSpan (bTopic (ebpBatch payload)) (Some message)
                 MessagingOperationValues.PROCESS None origSpanLink)
         (bMessages (ebpBatch payload)) in
     let! batchMessagePromise := apply_original ArgsEachBatch original payload in
     finalize (receivingSpan :: spans) batchMessagePromise).
End Instrumentation.

(** ** Patching: function values, objects and the wrapping primitives

    The instrumentation installs its patched functions with the [_wrap] and
    [_unwrap] of its base class, which are shimmer's [wrap] and [unwrap],
    and tests functions with [isWrapped].  These are modelled from their
    contract: [wrap] replaces the function in a slot of an object by a new
    function that remembers the original and the slot it was installed in;
    [unwrap] asks the function found in a slot to undo itself, which puts
    the original back into the slot the wrapper was installed in, provided
    that slot still holds the wrapper.  (What shimmer prints when there is
    nothing to wrap or unwrap is left out.) *)

(** The wrapper factories of the instrumentation. *)
Inductive Patch :=
| ProducerPatch
| ConsumerPatch
| ConsumerRunPatch
| ConsumerEachMessagePatch
| ConsumerEachBatchPatch
| ProducerSendBatchPatch
| ProducerSendPatch.

(** A function value, with its identity: a function of the library or of
    the application, or the function [patch] made from [original] when it
    was installed in slot [name] of the object at [nodule]. *)
Inductive Fn :=
| Native (id : nat)
| Wrapped (id : nat) (patch : Patch) (nodule : nat) (name : string) (original : Fn).

Definition fn_id (f : Fn) : nat :=
  match f with
  | Native id => id
  | Wrapped id _ _ _ _ => id
  end.

(** [isWrapped(func)] *)
Definition isWrapped (func : option Fn) : bool :=
  match func with
  | Some (Wrapped _ _ _ _ _) => true
  | _ => false
  end.

(** The objects whose methods get patched, by address, and the next unused
    function identity. *)
Record Host := {
  hObjects : gmap nat (gmap string Fn);
  hNextId : nat;
}.

(** [nodule[name]] *)
Definition get_slot (h : Host) (nodule : nat) (name : string) : option Fn :=
  match hObjects h !! nodule with
  | Some obj => obj !! name
  | None => None
  end.

(** [nodule[name] = f] on an existing object. *)
Definition set_slot (nodule : nat) (name : string) (f : Fn) (h : Host) : Host :=
  {| hObjects := alter (<[name := f]>) nodule (hObjects h);
     hNextId := hNextId h |}.

(** [shimmer.wrap(nodule, name, wrapper)]: nothing happens when the object
    or the function is missing. *)
Definition shimmer_wrap (nodule : option nat) (name : string) (patch : Patch)
    (h : Host) : Host :=
  match nodule with
  | None => h
  | Some a =>
      match get_slot h a name with
      | None => h
      | Some original =>
          set_slot a name (Wrapped (hNextId h) patch a name original)
            {| hObjects := hObjects h; hNextId := S (hNextId h) |}
      end
  end.

(** [shimmer.unwrap(nodule, name)]: the wrapper found in the slot restores
    its original in the slot it was installed in, if that slot still holds
    it. *)
Definition shimmer_unwrap (nodule : option nat) (name : string) (h : Host) : Host :=
  match nodule with
  | None => h
  | Some a =>
      match get_slot h a name with
      | Some (Wrapped id _ home slot original) =>
          match get_slot h home slot with
          | Some f =>
              if Nat.eqb (fn_id f) id then set_slot home slot original h else h
          | None => h
          end
      | _ => h
      end
  end.

(** [if (isWrapped(nodule[name])) this._unwrap(nodule, name);
     this._wrap(nodule, name, patch);] *)
Definition rewrap (nodule : nat) (name : string) (patch : Patch) (h : Host) : Host :=
  let h1 := if isWrapped (get_slot h nodule name)
            then shimmer_unwrap (Some nodule) name h else h in
  shimmer_wrap (Some nodule) name patch h1.

(** [unpatch(moduleExports)] of [init]; [prototype] is the address of
    [moduleExports?.Kafka?.prototype], if there is one. *)
Definition unpatch (prototype : option nat) (h : Host) : Host :=
  let slot (h : Host) (name : string) :=
    match prototype with
    | Some a => get_slot h a name
    | None => None
    end in
  let h1 := if isWrapped (slot h "producer")
            then shimmer_unwrap prototype "producer" h else h in
  if isWrapped (slot h1 "consumer")
  then shimmer_unwrap prototype "consumer" h1 else h1.

(** The patch function of [init]: records the module version on the
    instrumentation, unpatches, and wraps [producer] and [consumer]. *)
Definition patch (this : KafkaJsInstrumentation) (prototype : option nat)
    (version : option string) (h : Host) : KafkaJsInstrumentation * Host :=
  let this' := {| _config := _config this; moduleVersion := version |} in
  let h1 := unpatch prototype h in
  let h2 := shimmer_wrap prototype "producer" ProducerPatch h1 in
  let h3 := shimmer_wrap prototype "consumer" ConsumerPatch h2 in
  (this', h3).

(** [_getConsumerPatch]: the patched [Kafka.prototype.consumer].  The
    original makes the consumer object (or throws). *)
Definition _getConsumerPatch (original : Host -> Completion nat * Host)
    (h : Host) : Completion nat * Host :=
  match original h with
  | (Throw e, h1) => (Throw e, h1)
  | (Normal newConsumer, h1) =>
      (Normal newConsumer, rewrap newConsumer "run" ConsumerRunPatch h1)
  end.

(** [_getProducerPatch]: the patched [Kafka.prototype.producer]. *)
Definition _getProducerPatch (original : Host -> Completion nat * Host)
    (h : Host) : Completion nat * Host :=
  match original h with
  | (Throw e, h1) => (Throw e, h1)
  | (Normal newProducer, h1) =>
      let h2 := rewrap newProducer "sendBatch" ProducerSendBatchPatch h1 in
      let h3 := rewrap newProducer "send" ProducerSendPatch h2 in
      (Normal newProducer, h3)
  end.

(** The statements of the patched [run] before its [return]: the handlers
    present in the config object are wrapped, in place. *)
Definition wrap_handlers (config : option nat) (h : Host) : Host :=
  match config with
  | None => h
  | Some c =>
      let h1 := match get_slot h c "eachMessage" with
                | Some _ => rewrap c "eachMessage" ConsumerEachMessagePatch h
                | None => h
                end in
      match get_slot h1 c "eachBatch" with
      | Some _ => rewrap c "eachBatch" ConsumerEachBatchPatch h1
      | None => h1
      end
  end.

(** [_getConsumerRunPatch]: the patched [run], ending in
    [return original.call(this, config)]. *)
Definition _getConsumerRunPatch {R}
    (original : option nat -> Host -> R) (config : option nat) (h : Host) : R :=
  original config (wrap_handlers config h).

(** What a function was before its outermost wrapping. *)
Definition unwrapped (f : Fn) : Fn :=
  match f with
  | Wrapped _ _ _ _ original => original
  | Native _ => f
  end.

(** A wrapper found in a slot sits where it was installed; any function
    that is not a wrapper qualifies. *)
Definition installed_here (h : Host) (nodule : nat) (name : string) : Prop :=
  match get_slot h nodule name with
  | Some (Wrapped _ _ home slot _) => home = nodule /\ slot = name
  | _ => True
  end.

(** The slot holds the function [patch] made of [original], installed in
    this very slot. *)
Definition patched_once (h : Host) (nodule : nat) (name : string) (patch : Patch)
    (original : Fn) : Prop :=
  exists id, get_slot h nodule name = Some (Wrapped id patch nodule name original).

(** From [h] to [h'], the function in the slot, if there was one, has been
    replaced by one wrapper made by [patch] around what the function was
    before any wrapping; an empty slot has stayed empty. *)
Definition rewrapped (h h' : Host) (nodule : nat) (name : string) (patch : Patch)
  : Prop :=
  match get_slot h nodule name with
  | Some f => patched_once h' nodule name patch (unwrapped f)
  | None => get_slot h' nodule name = None
  end.

(** A config object with both handlers, as the application wrote them. *)
Definition sample_host : Host :=
  {| hObjects := {[ 1 := {[ "eachMessage" := Native 10; "eachBatch" := Native 11 ]};
                    2 := {[ "producer" := Native 20; "consumer" := Native 21 ]};
                    3 := {[ "send" := Native 30; "sendBatch" := Native 31;
                            "run" := Native 32 ]} ]};
     hNextId := 100 |}.

(** A second config object whose [eachMessage] was copied from a config
    that an earlier [run] had patched: the wrapper's home is object 1. *)
Definition sample_host_with_copy : Host :=
  {| hObjects :=
       {[ 1 := {[ "eachMessage" :=
                    Wrapped 50 ConsumerEachMessagePatch 1 "eachMessage" (Native 10) ]};
          4 := {[ "eachMessage" :=
                    Wrapped 50 ConsumerEachMessagePatch 1 "eachMessage" (Native 10) ]} ]};
     hNextId := 100 |}.

(** ** Observations *)

Definition add_calls (cs : list SpanCall) (sp : SpanData) : SpanData :=
  {| spName := spName sp; spKind := spKind sp;
     spAttributes := spAttributes sp; spLinks := spLinks sp;
     spParent := spParent sp; spCalls := spCalls sp ++ cs |}.

(** The calls span number [span] has received so far. *)
Definition span_calls (w : World) (span : nat) : list SpanCall :=
  match wSpans w !! span with
  | Some sp => spCalls sp
  | None => []
  end.

Fixpoint count_ends (cs : list SpanCall) : nat :=
  match cs with
  | [] => 0
  | CallEnd :: cs' => S (count_ends cs')
  | _ :: cs' => count_ends cs'
  end.

(** How many times [end()] has been called on a span. *)
Definition end_count (w : World) (span : nat) : nat :=
  count_ends (span_calls w span).

Definition is_setAttribute (c : SpanCall) : bool :=
  match c with
  | CallSetAttribute _ _ => true
  | _ => false
  end.

(** The spans started on the way from [w] to [w']. *)
Definition new_spans (w w' : World) : list nat :=
  seq (length (wSpans w)) (length (wSpans w') - length (wSpans w)).

(** What the finalizer does to each of its spans, by the way the wrapped
    call completed. *)
Definition finalizer_calls (result : Completion Returned) : list SpanCall :=
  match result with
  | Throw _ => []
  | Normal x =>
      match Promise_resolve x with
      | Pending => []
      | Fulfilled _ => [CallEnd]
      | Rejected reason =>
          match errorMessage_of reason with
          | Normal errorMessage => [CallSetStatus ERROR errorMessage; CallEnd]
          | Throw _ => [CallEnd]
          end
      end
  end.

(** What a patched function hands back to its caller. *)
Definition finalizer_result (result : Completion Returned) : Completion Settlement :=
  match result with
  | Throw e => Throw e
  | Normal x =>
      Normal
        match Promise_resolve x with
        | Rejected reason =>
            match errorMessage_of reason with
            | Normal _ => Rejected reason
            | Throw e => Rejected e
            end
        | p => p
        end
  end.

(** ** What span creation leaves behind *)

(** The attribute call [_addModuleVersion] makes on a span. *)
Definition module_version_calls (this : KafkaJsInstrumentation) : list SpanCall :=
  match moduleVersionAttributeName (_config this), moduleVersion this with
  | Some name, Some version => [CallSetAttribute name (JsString version)]
  | _, _ => []
  end.

(** The calls a hook run makes on the span it is given. *)
Definition hook_calls (r : option HookRun) : list SpanCall :=
  match r with
  | Some r => map (fun kv => CallSetAttribute (fst kv) (snd kv)) (hrAttributes r)
  | None => []
  end.

(** The diagnostics a hook run leaves behind. *)
Definition hook_diag (message : string) (r : option HookRun)
  : list (string * JsValue) :=
  match r with
  | Some r =>
      match hrThrows r with
      | Some e => if truthy e then [(message, e)] else []
      | None => []
      end
  | None => []
  end.

(** The consumer hook runs when it is configured and a message is given. *)
Definition consumer_hook_run (this : KafkaJsInstrumentation) (span : nat)
    (topic : string) (message : option KafkaMessage) : option HookRun :=
  match consumerHook (_config this), message with
  | Some hook, Some message => Some (hook span topic message)
  | _, _ => None
  end.

(** The producer hook runs when it is configured. *)
Definition producer_hook_run (this : KafkaJsInstrumentation) (span : nat)
    (topic : string) (message : nat) : option HookRun :=
  match producerHook (_config this) with
  | Some hook => Some (hook span topic message)
  | None => None
  end.

Definition consumer_attributes (topic operation : string) : list (string * string) :=
  [("messaging.system", "kafka"); ("messaging.destination", topic);
   ("messaging.destination_kind", "topic"); ("messaging.operation", operation)].

Definition producer_attributes (topic : string) : list (string * string) :=
  [("messaging.system", "kafka"); ("messaging.destination", topic);
   ("messaging.destination_kind", "topic")].

(** The span [_startConsumerSpan] leaves in the tracer when called in [w]. *)
Definition consumer_span (this : KafkaJsInstrumentation) (w : World)
    (topic : string) (message : option KafkaMessage) (operation : string)
    (context : option Context) (link : option SpanContext) : SpanData :=
  {| spName := topic;
     spKind := CONSUMER;
     spAttributes := consumer_attributes topic operation;
     spLinks := match link with Some l => [l] | None => [] end;
     spParent := ctxSpan (default (wActive w) context);
     spCalls := module_version_calls this ++
                hook_calls (consumer_hook_run this (length (wSpans w)) topic message) |}.

Definition consumerHook_error := "kafkajs instrumentation: consumerHook error".
Definition producerHook_error := "kafkajs instrumentation: producerHook error".

(** The header object a message holds once [_startProducerSpan] has run:
    the one it had, or a newly allocated one. *)
Definition headers_ref (w : World) (message : nat) : nat :=
  match msgHeaders (wMessages w !!! message) with
  | Some h => h
  | None => fresh (dom (wHeaders w))
  end.

(** The headers of a message before injection; none count as empty. *)
Definition headers_before (w : World) (message : nat) : Headers :=
  match msgHeaders (wMessages w !!! message) with
  | Some h => wHeaders w !!! h
  | None => ∅
  end.

Definition with_headers (h : nat) (m : Message) : Message :=
  {| msgKey := msgKey m; msgValue := msgValue m; msgHeaders := Some h |}.

(** The span [_startProducerSpan] leaves in the tracer when called in [w]. *)
Definition producer_span (this : KafkaJsInstrumentation) (w : World)
    (topic : string) (message : nat) : SpanData :=
  {| spName := topic;
     spKind := PRODUCER;
     spAttributes := producer_attributes topic;
     spLinks := [];
     spParent := ctxSpan (wActive w);
     spCalls := module_version_calls this ++
                hook_calls (producer_hook_run this (length (wSpans w)) topic message) |}.

(** The world [_startProducerSpan] leaves when called in [w]. *)
Definition producer_world (propagator : TextMapPropagator)
    (this : KafkaJsInstrumentation) (topic : string) (message : nat) (w : World)
  : World :=
  let span := length (wSpans w) in
  {| wSpans := wSpans w ++ [producer_span this w topic message];
     wActive := wActive w;
     wDiag := wDiag w ++
              hook_diag producerHook_error (producer_hook_run this span topic message);
     wCalls := wCalls w;
     wMessages := <[message := with_headers (headers_ref w message)
                                  (wMessages w !!! message)]> (wMessages w);
     wHeaders := <[headers_ref w message :=
                     set_fields (inject_fields propagator (trace_setSpan (wActive w) span))
                       (headers_before w message)]> (wHeaders w) |}.

(** The world [_startConsumerSpan] leaves when called in [w]. *)
Definition consumer_world (this : KafkaJsInstrumentation) (topic : string)
    (message : option KafkaMessage) (operation : string)
    (context : option Context) (link : option SpanContext) (w : World) : World :=
  set_wDiag
    (fun d => d ++ hook_diag consumerHook_error
                     (consumer_hook_run this (length (wSpans w)) topic message))
    (set_wSpans
       (fun sps => sps ++ [consumer_span this w topic message operation context link])
       w).

(** ** Span creation over a list *)

(** Running a span-creating step over a list, left to right: the world
    reached, and the spans started on the way. *)
Definition run_steps {A} (step : A -> World -> World) (l : list A) (w : World) : World :=
  foldl (fun w x => step x w) w l.

Fixpoint spans_along {A} (span_of : A -> World -> SpanData)
    (step : A -> World -> World) (l : list A) (w : World) : list SpanData :=
  match l with
  | [] => []
  | x :: l' => span_of x w :: spans_along span_of step l' (step x w)
  end.

(** The (topic, message) pairs of a batch: group order, then message order
    within the group. *)
Definition flat_pairs (groups : list TopicMessages) : list (string * nat) :=
  concat (map (fun tm => map (fun m => (tmTopic tm, m)) (tmMessages tm)) groups).

(** Producer span creation as a step over (topic, message) pairs. *)
Definition produce_step (propagator : TextMapPropagator)
    (this : KafkaJsInstrumentation) (p : string * nat) (w : World) : World :=
  producer_world propagator this (fst p) (snd p) w.

Definition produce_span (this : KafkaJsInstrumentation) (p : string * nat)
    (w : World) : SpanData :=
  producer_span this w (fst p) (snd p).

(** The span ids [sendBatch] collects per group, the first being [a]. *)
Fixpoint nested_ids (a : nat) (groups : list TopicMessages) : list (list nat) :=
  match groups with
  | [] => []
  | g :: gs =>
      seq a (length (tmMessages g)) :: nested_ids (a + length (tmMessages g)) gs
  end.

(** The link a batch message's process span is given: the span context
    decoded from the message's own headers, if any. *)
Definition link_of (Buffer_toString : list Byte.byte -> string)
    (propagator : TextMapPropagator) (message : KafkaMessage) : option SpanContext :=
  trace_getSpanContext
    (propagation_extract Buffer_toString propagator ROOT_CONTEXT (kmHeaders message)).

(** Process span creation as a step over the messages of a batch. *)
Definition process_step (Buffer_toString : list Byte.byte -> string)
    (propagator : TextMapPropagator) (this : KafkaJsInstrumentation)
    (topic : string) (message : KafkaMessage) (w : World) : World :=
  consumer_world this topic (Some message) MessagingOperationValues.PROCESS None
    (link_of Buffer_toString propagator message) w.

Definition process_span (Buffer_toString : list Byte.byte -> string)
    (propagator : TextMapPropagator) (this : KafkaJsInstrumentation)
    (topic : string) (message : KafkaMessage) (w : World) : SpanData :=
  consumer_span this w topic (Some message) MessagingOperationValues.PROCESS None
    (link_of Buffer_toString propagator message).

(** The world a patched function leaves: started from [w1], where the
    spans [news] had been added after [old], the original has been invoked
    and the finalizer has made its calls. *)
Definition patched_world (result : Completion Returned) (args : OriginalArgs)
    (active : Context) (old news : list SpanData) (w1 : World) : World :=
  set_wSpans (fun _ => old ++ map (add_calls (finalizer_calls result)) news)
    (set_wCalls (fun l => l ++ [{| ocArgs := args; ocActive := active |}]) w1).

(** The pairs [send] creates spans for. *)
Definition record_pairs (record : ProducerRecord) : list (string * nat) :=
  map (pair (prTopic record)) (prMessages record).

(** The pairs [sendBatch] creates spans for. *)
Definition batch_pairs (batch : ProducerBatch) : list (string * nat) :=
  flat_pairs (default [] (pbTopicMessages batch)).

(** Whether the wrapped call returned a result that settles. *)
Definition settles (result : Completion Returned) : bool :=
  match result with
  | Throw _ => false
  | Normal x =>
      match Promise_resolve x with
      | Pending => false
      | Fulfilled _ | Rejected _ => true
      end
  end.

(** ** Properties of a run *)

(** A run of steps, each related to the world before and after it. *)
Inductive Steps {A B} (R : A -> World -> B -> World -> Prop)
  : list A -> World -> list B -> World -> Prop :=
| Steps_nil w : Steps R [] w [] w
| Steps_cons x w y w1 xs ys w2 :
    R x w y w1 -> Steps R xs w1 ys w2 -> Steps R (x :: xs) w (y :: ys) w2.

(** What a header object holds once [fields] have been written into an
    object that held [before]: at a written key the value written last, at
    every other key what it held. *)
Definition written (fields : list (string * string)) (before c : Headers) : Prop :=
  forall k,
    c !! k = match assoc k (rev fields) with
             | Some v => Some (HvString v)
             | None => before !! k
             end.

(** What creating the producer span [span] for the pair [p] does, from [w]
    to [w']: the span is the one new span, a PRODUCER span named after the
    topic; the message holds a header object, the one it had or else a new
    one that started empty; that object has received the fields of the
    context made of the active context and the new span; no other header
    object, no other message and neither key nor value of the message has
    changed. *)
Definition header_injected (propagator : TextMapPropagator) (p : string * nat)
    (w : World) (span : nat) (w' : World) : Prop :=
  let fields := inject_fields propagator (trace_setSpan (wActive w) span) in
  span = length (wSpans w) /\
  (exists sp, wSpans w' = wSpans w ++ [sp] /\ spKind sp = PRODUCER /\
              spName sp = fst p) /\
  (exists h c,
     match msgHeaders (wMessages w !!! snd p) with
     | Some h0 => h = h0
     | None => wHeaders w !! h = None
     end /\
     msgHeaders (wMessages w' !!! snd p) = Some h /\
     wHeaders w' !! h = Some c /\
     written fields (headers_before w (snd p)) c /\
     (forall h', h' <> h -> wHeaders w' !! h' = wHeaders w !! h')) /\
  msgKey (wMessages w' !!! snd p) = msgKey (wMessages w !!! snd p) /\
  msgValue (wMessages w' !!! snd p) = msgValue (wMessages w !!! snd p) /\
  (forall m, m <> snd p -> wMessages w' !! m = wMessages w !! m).

(** The messages of the pairs are pairwise distinct objects, and the
    header objects they come with exist in the store and are pairwise
    distinct too: no two messages share their headers. *)
Definition separate_messages (w : World) (pairs : list (string * nat)) : Prop :=
  NoDup pairs.*2 /\
  (forall m h, m ∈ pairs.*2 -> msgHeaders (wMessages w !!! m) = Some h ->
               h ∈ dom (wHeaders w)) /\
  (forall m m' h, m ∈ pairs.*2 -> m' ∈ pairs.*2 ->
                  msgHeaders (wMessages w !!! m) = Some h ->
                  msgHeaders (wMessages w !!! m') = Some h -> m = m').

(** In [w'], the message of each pair holds a header object into which
    the fields of its own span have been written, over what the message's
    headers held in [w]: the span of the i-th pair is the i-th span started
    after [w]. *)
Definition own_context_carried (propagator : TextMapPropagator)
    (pairs : list (string * nat)) (w w' : World) : Prop :=
  forall i p, pairs !! i = Some p ->
    exists h c,
      msgHeaders (wMessages w' !!! snd p) = Some h /\
      wHeaders w' !! h = Some c /\
      written
        (inject_fields propagator
           (trace_setSpan (wActive w) (length (wSpans w) + i)))
        (headers_before w (snd p)) c.

(** The store of messages and headers in [w'] is the one reached from [w]
    by creating a producer span for each pair in turn; every message of the
    pairs holds a header object; and messages that share nothing each carry
    the context of their own span. *)
Definition headers_injected_for (propagator : TextMapPropagator)
    (pairs : list (string * nat)) (w w' : World) : Prop :=
  (exists spans w1,
     Steps (header_injected propagator) pairs w spans w1 /\
     wMessages w' = wMessages w1 /\ wHeaders w' = wHeaders w1) /\
  (forall p, p ∈ pairs -> is_Some (msgHeaders (wMessages w' !!! snd p))) /\
  (separate_messages w pairs -> own_context_carried propagator pairs w w').

(** Span [sp], the span number [span], is the one made for the pair [p]:
    a PRODUCER span named after the topic of the pair, on which the
    producer hook, if any, has been run with this span, this topic and the
    message of the pair, and which has received the calls [after] since. *)
Definition span_of_message (this : KafkaJsInstrumentation) (p : string * nat)
    (span : nat) (after : list SpanCall) (sp : SpanData) : Prop :=
  spName sp = fst p /\
  spKind sp = PRODUCER /\
  spAttributes sp = producer_attributes (fst p) /\
  spLinks sp = [] /\
  spCalls sp =
    module_version_calls this ++
    hook_calls (producer_hook_run this span (fst p) (snd p)) ++ after.

(** Every span started on the way from [w] to [w'] has been ended exactly
    once. *)
Definition all_ended_once (w w' : World) : Prop :=
  Forall (fun span => end_count w' span = 1) (new_spans w w').

(** Span [span] is not a child of span [parent]. *)
Definition not_child_of (w : World) (span parent : nat) : Prop :=
  forall sp, wSpans w !! span = Some sp -> spParent sp <> Some (LocalSpan parent).

(** The value [e] has been reported on the diagnostic channel. *)
Definition logged (w : World) (e : JsValue) : Prop :=
  exists message, (message, e) ∈ wDiag w.

(** ** Sample data *)

(** A propagator in the style of W3C trace context: one field,
    ["traceparent"], holding the trace id. *)
Definition sample_propagator : TextMapPropagator :=
  {| inject_fields := fun c =>
       match ctxSpan c with
       | Some (LocalSpan _) => [("traceparent", "local")]
       | Some (RemoteSpan traceId _) => [("traceparent", traceId)]
       | None => []
       end;
     extract_from := fun base get _ =>
       match get "traceparent" with
       | Some traceId =>
           {| ctxSpan := Some (RemoteSpan traceId ""); ctxValues := ctxValues base |}
       | None => base
       end |}.

Definition sample_toString (b : list Byte.byte) : string :=
  string_of_list_byte b.

(** An instrumentation without hooks or module version attribute. *)
Definition plain_instrumentation : KafkaJsInstrumentation :=
  {| _config := {| producerHook := None; consumerHook := None;
                   moduleVersionAttributeName := None |};
     moduleVersion := None |}.

(** An instrumentation whose hooks throw the given value. *)
Definition throwing_instrumentation (e : JsValue) : KafkaJsInstrumentation :=
  {| _config :=
       {| producerHook :=
            Some (fun _ _ _ => {| hrAttributes := []; hrThrows := Some e |});
          consumerHook :=
            Some (fun _ _ _ => {| hrAttributes := []; hrThrows := Some e |});
          moduleVersionAttributeName := None |};
     moduleVersion := None |}.

(** A world with one outgoing message object, without headers. *)
Definition sample_world : World :=
  {| wSpans := []; wActive := ROOT_CONTEXT; wDiag := []; wCalls := [];
     wMessages := {[ 0 := {| msgKey := None; msgValue := Some "v";
                             msgHeaders := None |} ]};
     wHeaders := ∅ |}.

Definition sample_record : ProducerRecord :=
  {| prTopic := "orders"; prMessages := [0] |}.

Definition sample_message : KafkaMessage :=
  {| kmKey := None; kmValue := Some "v"; kmHeaders := None |}.

Definition sample_payload : EachMessagePayload :=
  {| empTopic := "events"; empPartition := 0; empMessage := sample_message |}.

Definition sample_batch_payload : EachBatchPayload :=
  {| ebpBatch := {| bTopic := "events"; bPartition := 0;
                    bMessages := [sample_message] |} |}.

Definition sample_empty_batch : ProducerBatch := {| pbTopicMessages := None |}.

(** A propagator that writes the number of the span into its one field. *)
Definition numbering_propagator : TextMapPropagator :=
  {| inject_fields := fun c =>
       match ctxSpan c with
       | Some (LocalSpan id) =>
           [("traceparent",
             String.append "span-" (NilZero.string_of_uint (Nat.to_uint id)))]
       | Some (RemoteSpan traceId _) => [("traceparent", traceId)]
       | None => []
       end;
     extract_from := fun base get _ =>
       match get "traceparent" with
       | Some traceId =>
           {| ctxSpan := Some (RemoteSpan traceId ""); ctxValues := ctxValues base |}
       | None => base
       end |}.

(** An instrumentation whose producer hook marks the span with the message
    it was called with. *)
Definition marking_instrumentation : KafkaJsInstrumentation :=
  {| _config :=
       {| producerHook :=
            Some (fun _ _ message =>
                    {| hrAttributes := [("message", JsNumber (Z.of_nat message))];
                       hrThrows := None |});
          consumerHook := None;
          moduleVersionAttributeName := None |};
     moduleVersion := None |}.

(** A world with three outgoing message objects: the second with a header
    of the application's own, the others without headers. *)
Definition sample_outbox : World :=
  {| wSpans := []; wActive := ROOT_CONTEXT; wDiag := []; wCalls := [];
     wMessages := {[ 0 := {| msgKey := None; msgValue := Some "a";
                             msgHeaders := None |};
                     1 := {| msgKey := None; msgValue := Some "b";
                             msgHeaders := Some 0 |};
                     2 := {| msgKey := None; msgValue := Some "c";
                             msgHeaders := None |} ]};
     wHeaders := {[ 0 := {[ "app" := HvString "x" ]} ]} |}.

(** A world with two outgoing message objects, both without headers. *)
Definition sample_outbox_bare : World :=
  {| wSpans := []; wActive := ROOT_CONTEXT; wDiag := []; wCalls := [];
     wMessages := {[ 0 := {| msgKey := None; msgValue := Some "a";
                             msgHeaders := None |};
                     1 := {| msgKey := None; msgValue := Some "b";
                             msgHeaders := None |} ]};
     wHeaders := ∅ |}.

Definition sample_record_of_two : ProducerRecord :=
  {| prTopic := "orders"; prMessages := [0; 1] |}.

(** A batch of two groups, the first with two messages. *)
Definition sample_producer_batch : ProducerBatch :=
  {| pbTopicMessages :=
       Some [{| tmTopic := "orders"; tmMessages := [0; 1] |};
             {| tmTopic := "audit"; tmMessages := [2] |}] |}.



(** ** Outcomes, as a caller sees them *)

(** The message the rejection handler attaches for a reason other than
    [null]: a string as it is, an object's own [message], else
    [undefined]. *)
Definition rejection_message (reason : JsValue) : JsValue :=
  match reason with
  | JsString s => JsString s
  | JsObject _ own => default JsUndefined (assoc "message" own)
  | _ => JsUndefined
  end.

(** What the caller of a patched function gets, from how the original
    completed. *)
Definition caller_sees (result : Completion Returned) : Completion Settlement :=
  match result with
  | Throw e => Throw e
  | Normal x =>
      match Promise_resolve x with
      | Rejected JsNull => Normal (Rejected TypeError_ToObject)
      | p => Normal p
      end
  end.

(** The span has received, since it was started, attribute calls and then
    exactly the calls [cs]. *)
Definition span_received (w : World) (cs : list SpanCall) (span : nat) : Prop :=
  exists attrs, forallb is_setAttribute attrs = true /\
                span_calls w span = attrs ++ cs.

Definition sample_batch_of_three : EachBatchPayload :=
  {| ebpBatch := {| bTopic := "events"; bPartition := 0;
                    bMessages := [sample_message; sample_message; sample_message] |} |}.

(** A world with one outgoing message object that carries a header of the
    application's own. *)
Definition sample_world_with_headers : World :=
  {| wSpans := []; wActive := ROOT_CONTEXT; wDiag := []; wCalls := [];
     wMessages := {[ 0 := {| msgKey := None; msgValue := Some "v";
                             msgHeaders := Some 0 |} ]};
     wHeaders := {[ 0 := {[ "app" := HvString "x" ]} ]} |}.

(** ** Span calls *)

Lemma set_wSpans_ext (f g : list SpanData -> list SpanData) (w : World) :
  f (wSpans w) = g (wSpans w) -> set_wSpans f w = set_wSpans g w.
Proof. intros H. unfold set_wSpans. by rewrite H. Qed.

Lemma forEach_span_call {A} (s : A -> nat) (c : A -> SpanCall) (l : list A) (w : World) :
  forEach (fun x => span_call (s x) (c x)) l w =
  (tt, set_wSpans
         (fun sps => foldl (fun acc x => alter (record_call (c x)) (s x) acc) sps l) w).
Proof.
  revert w. induction l as [|x l IH]; intros w.
  - by destruct w.
  - simpl. unfold bind. simpl. by rewrite IH.
Qed.

Lemma record_call_add_calls (c : SpanCall) (cs : list SpanCall) (sp : SpanData) :
  add_calls cs (record_call c sp) = add_calls (c :: cs) sp.
Proof. unfold add_calls, record_call. simpl. by rewrite <- app_assoc. Qed.

Lemma add_calls_nil (sp : SpanData) : add_calls [] sp = sp.
Proof. destruct sp. unfold add_calls. simpl. by rewrite app_nil_r. Qed.

Lemma add_calls_app (cs1 cs2 : list SpanCall) (sp : SpanData) :
  add_calls cs2 (add_calls cs1 sp) = add_calls (cs1 ++ cs2) sp.
Proof. unfold add_calls. simpl. by rewrite app_assoc. Qed.

(** Calls made on the span started last. *)
Lemma foldl_alter_last {A} (c : A -> SpanCall) (l : list A)
    (old : list SpanData) (sp : SpanData) :
  foldl (fun acc x => alter (record_call (c x)) (length old) acc) (old ++ [sp]) l =
  old ++ [add_calls (map c l) sp].
Proof.
  revert sp. induction l as [|x l IH]; intros sp; simpl.
  - by rewrite add_calls_nil.
  - rewrite alter_app_r_alt by lia. rewrite Nat.sub_diag. simpl.
    rewrite IH. by rewrite record_call_add_calls.
Qed.

(** The same call made on each of a run of consecutive spans. *)
Lemma foldl_alter_seq (c : SpanCall) (old news : list SpanData) :
  foldl (fun acc s => alter (record_call c) s acc)
    (old ++ news) (seq (length old) (length news)) =
  old ++ map (record_call c) news.
Proof.
  revert old. induction news as [|sp news IH]; intros old; simpl.
  - done.
  - rewrite alter_app_r_alt by lia. rewrite Nat.sub_diag. simpl.
    specialize (IH (old ++ [record_call c sp])).
    rewrite length_app in IH. simpl in IH.
    replace (length old + 1) with (S (length old)) in IH by lia.
    rewrite <- app_assoc in IH. simpl in IH. rewrite IH.
    by rewrite <- app_assoc.
Qed.

Lemma forEach_span_call_seq (c : SpanCall) (old news : list SpanData) (w : World) :
  wSpans w = old ++ news ->
  forEach (fun s => span_call s c) (seq (length old) (length news)) w =
  (tt, set_wSpans (fun _ => old ++ map (record_call c) news) w).
Proof.
  intros Hw. rewrite (forEach_span_call (fun s => s) (fun _ => c)).
  f_equal. apply set_wSpans_ext. rewrite Hw. apply foldl_alter_seq.
Qed.

Lemma forEach_span_end_seq (old news : list SpanData) (w : World) :
  wSpans w = old ++ news ->
  forEach span_end (seq (length old) (length news)) w =
  (tt, set_wSpans (fun _ => old ++ map (add_calls [CallEnd]) news) w).
Proof. exact (forEach_span_call_seq CallEnd old news w). Qed.

Lemma forEach_span_setStatus_seq (code : SpanStatusCode) (message : JsValue)
    (old news : list SpanData) (w : World) :
  wSpans w = old ++ news ->
  forEach (fun span => span_setStatus span code message)
    (seq (length old) (length news)) w =
  (tt, set_wSpans
         (fun _ => old ++ map (add_calls [CallSetStatus code message]) news) w).
Proof. exact (forEach_span_call_seq (CallSetStatus code message) old news w). Qed.

Lemma set_wSpans_id (w : World) (l : list SpanData) :
  wSpans w = l -> set_wSpans (fun _ => l) w = w.
Proof. intros <-. by destruct w. Qed.

Lemma map_add_calls_nil (news : list SpanData) : map (add_calls []) news = news.
Proof. induction news as [|sp news IH]; simpl; [done|]. by rewrite add_calls_nil, IH. Qed.

Lemma map_add_calls_app (cs1 cs2 : list SpanCall) (news : list SpanData) :
  map (add_calls cs2) (map (add_calls cs1) news) = map (add_calls (cs1 ++ cs2)) news.
Proof.
  rewrite map_map. apply map_ext. intros sp. apply add_calls_app.
Qed.

(** ** The finalizer *)

(** On the spans [news], started last and in this order, the finalizer makes
    exactly the calls [finalizer_calls], and hands back [finalizer_result]. *)
Lemma finalize_spec (old news : list SpanData) (result : Completion Returned) (w : World) :
  wSpans w = old ++ news ->
  finalize (seq (length old) (length news)) result w =
  (finalizer_result result,
   set_wSpans (fun _ => old ++ map (add_calls (finalizer_calls result)) news) w).
Proof.
  intros Hw. destruct result as [x|e]; simpl.
  - unfold bind, _endSpansOnPromise, bind.
    destruct (Promise_resolve x) as [v|reason|] eqn:Hx; simpl.
    + unfold bind. by rewrite (forEach_span_end_seq old news w Hw).
    + destruct (errorMessage_of reason) as [msg|e]; simpl; unfold bind.
      * rewrite (forEach_span_setStatus_seq ERROR msg old news w Hw).
        simpl.
        pose proof (forEach_span_end_seq old
                      (map (add_calls [CallSetStatus ERROR msg]) news)) as Hend.
        rewrite length_map in Hend. unfold bind. cbv beta.
        rewrite Hend by done.
        simpl. by rewrite map_add_calls_app.
      * by rewrite (forEach_span_end_seq old news w Hw).
    + rewrite map_add_calls_nil. by rewrite set_wSpans_id.
  - rewrite map_add_calls_nil. by rewrite set_wSpans_id.
Qed.

(** ** Span creation *)

Lemma World_eq (w1 w2 : World) :
  wSpans w1 = wSpans w2 -> wActive w1 = wActive w2 -> wDiag w1 = wDiag w2 ->
  wCalls w1 = wCalls w2 -> wMessages w1 = wMessages w2 ->
  wHeaders w1 = wHeaders w2 -> w1 = w2.
Proof. destruct w1, w2. simpl. by intros -> -> -> -> -> ->. Qed.

Ltac world_eq := apply World_eq; simpl; try done.

Lemma addModuleVersion_last (this : KafkaJsInstrumentation)
    (old : list SpanData) (sp : SpanData) (w : World) :
  wSpans w = old ++ [sp] ->
  _addModuleVersion this (length old) w =
  (tt, set_wSpans (fun _ => old ++ [add_calls (module_version_calls this) sp]) w).
Proof.
  intros Hw. unfold _addModuleVersion, module_version_calls.
  destruct (moduleVersionAttributeName (_config this)) as [name|];
    [destruct (moduleVersion this) as [version|]|]; simpl.
  - unfold span_setAttribute, span_call. f_equal. apply set_wSpans_ext.
    rewrite Hw. rewrite alter_app_r_alt by lia. by rewrite Nat.sub_diag.
  - unfold ret. f_equal. rewrite add_calls_nil. by rewrite set_wSpans_id.
  - unfold ret. f_equal. rewrite add_calls_nil. by rewrite set_wSpans_id.
Qed.

Lemma safe_hook_last (message : string) (r : HookRun)
    (old : list SpanData) (sp : SpanData) (w : World) :
  wSpans w = old ++ [sp] ->
  safeExecuteInTheMiddle (run_hook (length old) r)
    (fun e _ => if truthy e then diag_error message e else ret tt) true w =
  (Normal match hrThrows r with Some _ => None | None => Some JsUndefined end,
   set_wDiag (fun d => d ++ hook_diag message (Some r))
     (set_wSpans (fun _ => old ++ [add_calls (hook_calls (Some r)) sp]) w)).
Proof.
  intros Hw. unfold safeExecuteInTheMiddle, run_hook, bind.
  rewrite (forEach_span_call (fun _ => length old)
             (fun kv => CallSetAttribute (fst kv) (snd kv))).
  assert (Hs : forall l,
    foldl (fun acc (x : string * JsValue) =>
             alter (record_call (CallSetAttribute (fst x) (snd x))) (length old) acc)
      (wSpans w) l =
    old ++ [add_calls (map (fun kv => CallSetAttribute (fst kv) (snd kv)) l) sp]).
  { intros l. rewrite Hw. apply foldl_alter_last. }
  unfold hook_diag, hook_calls.
  destruct (hrThrows r) as [e|]; simpl.
  - rewrite andb_false_r. destruct (truthy e); simpl;
      f_equal; world_eq; try apply Hs. by rewrite app_nil_r.
  - f_equal; world_eq; try apply Hs. by rewrite app_nil_r.
Qed.

Lemma bind_run {A B} (m : M A) (k : A -> M B) (w w1 : World) (a : A) :
  m w = (a, w1) -> bind m k w = k a w1.
Proof. intros H. unfold bind. by rewrite H. Qed.

Lemma bind_normal_run {A B} (m : M (Completion A)) (k : A -> M (Completion B))
    (w w1 : World) (a : A) :
  m w = (Normal a, w1) -> bind_normal m k w = k a w1.
Proof. intros H. unfold bind_normal, bind. by rewrite H. Qed.

Lemma startConsumerSpan_spec (this : KafkaJsInstrumentation) (topic : string)
    (message : option KafkaMessage) (operation : string)
    (context : option Context) (link : option SpanContext) (w : World) :
  _startConsumerSpan this topic message operation context link w =
  (Normal (length (wSpans w)),
   consumer_world this topic message operation context link w).
Proof.
  unfold _startConsumerSpan, consumer_world.
  erewrite bind_run; [|reflexivity].
  erewrite bind_run; [|by apply (addModuleVersion_last this (wSpans w))].
  unfold consumer_span, consumer_hook_run.
  destruct (consumerHook (_config this)) as [hook|] eqn:Hhook;
    [destruct message as [m|]|].
  - erewrite bind_normal_run; [|by apply (safe_hook_last _ _ (wSpans w))].
    done.
  - unfold bind_normal, bind, ret. simpl. f_equal. world_eq; by rewrite app_nil_r.
  - unfold bind_normal, bind, ret. simpl. f_equal. world_eq; by rewrite app_nil_r.
Qed.

Lemma ensure_headers_frame (message : nat) (w : World) :
  wSpans (ensure_headers message w).2 = wSpans w /\
  wActive (ensure_headers message w).2 = wActive w /\
  wDiag (ensure_headers message w).2 = wDiag w /\
  wCalls (ensure_headers message w).2 = wCalls w.
Proof.
  unfold ensure_headers. by destruct (msgHeaders (wMessages w !!! message)).
Qed.

Lemma ensure_headers_store (fields : list (string * string)) (message : nat)
    (w : World) :
  (ensure_headers message w).1 = headers_ref w message /\
  wMessages (ensure_headers message w).2 =
    <[message := with_headers (headers_ref w message) (wMessages w !!! message)]>
      (wMessages w) /\
  <[headers_ref w message :=
      set_fields fields
        (wHeaders (ensure_headers message w).2 !!! headers_ref w message)]>
    (wHeaders (ensure_headers message w).2) =
  <[headers_ref w message := set_fields fields (headers_before w message)]>
    (wHeaders w).
Proof.
  unfold ensure_headers, headers_ref, headers_before.
  destruct (wMessages w !!! message) as [k v [h|]] eqn:Hmsg; simpl.
  - done.
  - rewrite lookup_total_insert_eq. by rewrite insert_insert_eq.
Qed.

Lemma startProducerSpan_spec (propagator : TextMapPropagator)
    (this : KafkaJsInstrumentation) (topic : string) (message : nat) (w : World) :
  _startProducerSpan propagator this topic message w =
  (Normal (length (wSpans w)), producer_world propagator this topic message w).
Proof.
  unfold _startProducerSpan.
  erewrite bind_run; [|reflexivity].
  erewrite bind_run; [|by apply (addModuleVersion_last this (wSpans w))].
  erewrite bind_run; [|apply surjective_pairing].
  set (fields := inject_fields propagator
                   (trace_setSpan (wActive w) (length (wSpans w)))).
  match goal with
  | |- context [ensure_headers message ?w2] =>
      pose proof (ensure_headers_frame message w2) as (Hs & Ha & Hd & Hc);
      pose proof (ensure_headers_store fields message w2) as (Hr & Hm & Hh);
      change (wActive w2) with (wActive w) in Ha;
      change (wDiag w2) with (wDiag w) in Hd;
      change (wCalls w2) with (wCalls w) in Hc;
      change (headers_ref w2 message) with (headers_ref w message) in Hr, Hm, Hh;
      change (headers_before w2 message) with (headers_before w message) in Hh;
      change (wMessages w2) with (wMessages w) in Hm;
      change (wHeaders w2) with (wHeaders w) in Hh;
      destruct (ensure_headers message w2) as [h w3]
  end.
  simpl in Hs, Ha, Hd, Hc, Hr, Hm, Hh. subst h.
  erewrite bind_run; [|reflexivity].
  erewrite bind_run; [|reflexivity].
  unfold producer_world, producer_span. unfold producer_hook_run.
  destruct (producerHook (_config this)) as [hook|] eqn:Hhook.
  - erewrite bind_normal_run; [|by apply (safe_hook_last _ _ (wSpans w))].
    unfold ret. f_equal. world_eq; rewrite ?Ha; try exact Hh; try congruence.
    by rewrite Hd.
  - unfold bind_normal, bind, ret. simpl. f_equal.
    world_eq; rewrite ?Ha; try exact Hh; try congruence.
    + rewrite Hs. by rewrite app_nil_r.
    + by rewrite Hd, app_nil_r.
Qed.

(** ** Iterated span creation *)

Section Steps.
Context {A : Type}.
Variable f : A -> M (Completion nat).
Variable step : A -> World -> World.
Variable span_of : A -> World -> SpanData.
Hypothesis f_spec : forall x w, f x w = (Normal (length (wSpans w)), step x w).
Hypothesis step_spans : forall x w, wSpans (step x w) = wSpans w ++ [span_of x w].

Lemma run_steps_spans (l : list A) (w : World) :
  wSpans (run_steps step l w) = wSpans w ++ spans_along span_of step l w.
Proof.
  revert w. induction l as [|x l IH]; intros w; simpl.
  - by rewrite app_nil_r.
  - unfold run_steps in *. simpl. rewrite IH, step_spans.
    by rewrite <- app_assoc.
Qed.

Lemma length_spans_along (l : list A) (w : World) :
  length (spans_along span_of step l w) = length l.
Proof. revert w. induction l as [|x l IH]; intros w; simpl; [done|]. by rewrite IH. Qed.

Lemma mapM_steps (l : list A) (w : World) :
  mapM f l w = (Normal (seq (length (wSpans w)) (length l)), run_steps step l w).
Proof.
  revert w. induction l as [|x l IH]; intros w; simpl.
  - done.
  - erewrite bind_normal_run; [|apply f_spec].
    erewrite bind_normal_run; [|apply IH].
    unfold ret. rewrite step_spans, length_app. simpl.
    by replace (length (wSpans w) + 1) with (S (length (wSpans w))) by lia.
Qed.

Lemma run_steps_preserves {B} (g : World -> B) (l : list A) (w : World) :
  (forall x w, g (step x w) = g w) -> g (run_steps step l w) = g w.
Proof.
  intros Hg. revert w. induction l as [|x l IH]; intros w; simpl; [done|].
  unfold run_steps in *. simpl. by rewrite IH.
Qed.
End Steps.

Lemma mapM_map {A B C} (g : A -> B) (f : B -> M (Completion C)) (l : list A)
    (w : World) :
  mapM f (map g l) w = mapM (fun x => f (g x)) l w.
Proof.
  revert w. induction l as [|x l IH]; intros w; simpl; [done|].
  unfold bind_normal, bind. destruct (f (g x) w) as [[y|e] w1]; [|done].
  by rewrite IH.
Qed.

Lemma run_steps_app {A} (step : A -> World -> World) (l1 l2 : list A) (w : World) :
  run_steps step (l1 ++ l2) w = run_steps step l2 (run_steps step l1 w).
Proof. unfold run_steps. by rewrite foldl_app. Qed.

Lemma spans_along_app {A} (span_of : A -> World -> SpanData)
    (step : A -> World -> World) (l1 l2 : list A) (w : World) :
  spans_along span_of step (l1 ++ l2) w =
  spans_along span_of step l1 w ++ spans_along span_of step l2 (run_steps step l1 w).
Proof.
  revert w. induction l1 as [|x l1 IH]; intros w; simpl; [done|].
  by rewrite IH.
Qed.

Lemma foldl_concat {A} (acc : list A) (ls : list (list A)) :
  foldl (fun acc val => acc ++ val) acc ls = acc ++ concat ls.
Proof.
  revert acc. induction ls as [|l ls IH]; intros acc; simpl.
  - by rewrite app_nil_r.
  - rewrite IH. by rewrite app_assoc.
Qed.

Lemma concat_nested_ids (a : nat) (groups : list TopicMessages) :
  concat (nested_ids a groups) = seq a (length (flat_pairs groups)).
Proof.
  revert a. induction groups as [|g gs IH]; intros a; simpl; [done|].
  unfold flat_pairs in *. simpl. rewrite IH.
  rewrite length_app, length_map. by rewrite seq_app.
Qed.

Section ProducerSteps.
Variable propagator : TextMapPropagator.
Variable this : KafkaJsInstrumentation.

Lemma produce_step_spec (p : string * nat) (w : World) :
  _startProducerSpan propagator this (fst p) (snd p) w =
  (Normal (length (wSpans w)), produce_step propagator this p w).
Proof. apply startProducerSpan_spec. Qed.

Lemma produce_step_spans (p : string * nat) (w : World) :
  wSpans (produce_step propagator this p w) = wSpans w ++ [produce_span this p w].
Proof. done. Qed.

(** The span-creating phase of [send]. *)
Lemma send_spans_spec (topic : string) (messages : list nat) (w : World) :
  mapM (fun message => _startProducerSpan propagator this topic message) messages w =
  (Normal (seq (length (wSpans w)) (length messages)),
   run_steps (produce_step propagator this) (map (pair topic) messages) w).
Proof.
  rewrite <- (length_map (pair topic) messages).
  rewrite <- (mapM_steps _ _ _ produce_step_spec produce_step_spans).
  by rewrite mapM_map.
Qed.

(** The span-creating phase of [sendBatch]. *)
Lemma sendBatch_spans_spec (groups : list TopicMessages) (w : World) :
  mapM (fun topicMessage =>
          mapM (fun message =>
                  _startProducerSpan propagator this (tmTopic topicMessage) message)
            (tmMessages topicMessage))
    groups w =
  (Normal (nested_ids (length (wSpans w)) groups),
   run_steps (produce_step propagator this) (flat_pairs groups) w).
Proof.
  revert w. induction groups as [|g gs IH]; intros w; simpl; [done|].
  erewrite bind_normal_run; [|apply send_spans_spec].
  erewrite bind_normal_run; [|apply IH].
  unfold ret, flat_pairs. simpl. rewrite run_steps_app.
  rewrite (run_steps_spans _ _ produce_step_spans).
  rewrite length_app, length_spans_along, length_map.
  done.
Qed.
End ProducerSteps.

(** ** The patched producer functions *)

Section ProducerPatches.
Variable propagator : TextMapPropagator.
Variable this : KafkaJsInstrumentation.

Lemma produce_step_active (pairs : list (string * nat)) (w : World) :
  wActive (run_steps (produce_step propagator this) pairs w) = wActive w.
Proof. by apply (run_steps_preserves _ wActive). Qed.

Lemma produce_step_calls (pairs : list (string * nat)) (w : World) :
  wCalls (run_steps (produce_step propagator this) pairs w) = wCalls w.
Proof. by apply (run_steps_preserves _ wCalls). Qed.

Lemma produce_finalize (result : Completion Returned) (args : OriginalArgs)
    (pairs : list (string * nat)) (w : World) :
  finalize (seq (length (wSpans w)) (length pairs)) result
    (set_wCalls (fun l => l ++ [{| ocArgs := args; ocActive := wActive w |}])
       (run_steps (produce_step propagator this) pairs w)) =
  (finalizer_result result,
   patched_world result args (wActive w) (wSpans w)
     (spans_along (produce_span this) (produce_step propagator this) pairs w)
     (run_steps (produce_step propagator this) pairs w)).
Proof.
  rewrite <- (length_spans_along (produce_step propagator this)
                (produce_span this) pairs w).
  rewrite finalize_spec; [done|].
  simpl. apply (run_steps_spans _ _ (produce_step_spans propagator this)).
Qed.

Lemma send_spec (original : Original ProducerRecord) (record : ProducerRecord)
    (w : World) :
  _getProducerSendPatch propagator this original record w =
  (finalizer_result (original record),
   patched_world (original record) (ArgsSend record) (wActive w) (wSpans w)
     (spans_along (produce_span this) (produce_step propagator this)
        (record_pairs record) w)
     (run_steps (produce_step propagator this) (record_pairs record) w)).
Proof.
  unfold _getProducerSendPatch.
  erewrite bind_normal_run; [|apply send_spans_spec].
  erewrite bind_run; [|reflexivity].
  rewrite produce_step_active.
  rewrite <- (length_map (pair (prTopic record)) (prMessages record)).
  apply produce_finalize.
Qed.

Lemma sendBatch_spec (original : Original ProducerBatch) (batch : ProducerBatch)
    (w : World) :
  _getProducerSendBatchPatch propagator this original batch w =
  (finalizer_result (original batch),
   patched_world (original batch) (ArgsSendBatch batch) (wActive w) (wSpans w)
     (spans_along (produce_span this) (produce_step propagator this)
        (batch_pairs batch) w)
     (run_steps (produce_step propagator this) (batch_pairs batch) w)).
Proof.
  unfold _getProducerSendBatchPatch.
  erewrite bind_normal_run; [|apply sendBatch_spans_spec].
  erewrite bind_run; [|reflexivity].
  rewrite produce_step_active.
  rewrite foldl_concat, concat_nested_ids. simpl.
  apply produce_finalize.
Qed.
End ProducerPatches.

(** ** The patched consumer functions *)

Section ConsumerPatches.
Variable Buffer_toString : list Byte.byte -> string.
Variable propagator : TextMapPropagator.
Variable this : KafkaJsInstrumentation.

Lemma eachMessage_spec (original : Original EachMessagePayload)
    (payload : EachMessagePayload) (w : World) :
  let context :=
    propagation_extract Buffer_toString propagator ROOT_CONTEXT
      (kmHeaders (empMessage payload)) in
  _getConsumerEachMessagePatch Buffer_toString propagator this original payload w =
  (finalizer_result (original payload),
   patched_world (original payload) (ArgsEachMessage payload)
     (trace_setSpan context (length (wSpans w))) (wSpans w)
     [consumer_span this w (empTopic payload) (Some (empMessage payload))
        MessagingOperationValues.PROCESS (Some context) None]
     (consumer_world this (empTopic payload) (Some (empMessage payload))
        MessagingOperationValues.PROCESS (Some context) None w)).
Proof.
  intros context. unfold _getConsumerEachMessagePatch.
  erewrite bind_normal_run; [|apply startConsumerSpan_spec].
  erewrite bind_run; [|reflexivity].
  pose proof (finalize_spec (wSpans w)
    [consumer_span this w (empTopic payload) (Some (empMessage payload))
       MessagingOperationValues.PROCESS (Some context) None]) as Hfin.
  simpl in Hfin. rewrite Hfin by done.
  f_equal.
Qed.

Lemma process_step_spec (topic : string) (message : KafkaMessage) (w : World) :
  (let propagatedContext :=
     propagation_extract Buffer_toString propagator ROOT_CONTEXT (kmHeaders message) in
   let spanContext := trace_getSpanContext propagatedContext in
   let origSpanLink :=
     match spanContext with
     | Some sc => Some sc
     | None => None
     end in
   _startConsumerSpan this topic (Some message)
     MessagingOperationValues.PROCESS None origSpanLink) w =
  (Normal (length (wSpans w)),
   process_step Buffer_toString propagator this topic message w).
Proof.
  cbv zeta. rewrite startConsumerSpan_spec. unfold process_step, link_of.
  by destruct (trace_getSpanContext _).
Qed.

Lemma process_step_spans (topic : string) (message : KafkaMessage) (w : World) :
  wSpans (process_step Buffer_toString propagator this topic message w) =
  wSpans w ++ [process_span Buffer_toString propagator this topic message w].
Proof. done. Qed.

Lemma eachBatch_spec (original : Original EachBatchPayload)
    (payload : EachBatchPayload) (w : World) :
  let topic := bTopic (ebpBatch payload) in
  let receiving := trace_setSpan (wActive w) (length (wSpans w)) in
  let w1 :=
    set_wActive receiving
      (consumer_world this topic None MessagingOperationValues.RECEIVE
         (Some ROOT_CONTEXT) None w) in
  _getConsumerEachBatchPatch Buffer_toString propagator this original payload w =
  (finalizer_result (original payload),
   set_wActive (wActive w)
     (patched_world (original payload) (ArgsEachBatch payload) receiving (wSpans w)
        (consumer_span this w topic None MessagingOperationValues.RECEIVE
           (Some ROOT_CONTEXT) None ::
         spans_along (process_span Buffer_toString propagator this topic)
           (process_step Buffer_toString propagator this topic)
           (bMessages (ebpBatch payload)) w1)
        (run_steps (process_step Buffer_toString propagator this topic)
           (bMessages (ebpBatch payload)) w1))).
Proof.
  intros topic receiving w1. unfold _getConsumerEachBatchPatch.
  erewrite bind_normal_run; [|apply startConsumerSpan_spec].
  erewrite bind_run; [|reflexivity].
  unfold context_with.
  erewrite bind_normal_run;
    [|apply (mapM_steps _ _ _ (process_step_spec topic) (process_step_spans topic))].
  erewrite bind_run; [|reflexivity].
  set (msgs := bMessages (ebpBatch payload)).
  set (w2 := run_steps (process_step Buffer_toString propagator this topic) msgs _).
  assert (Hactive : wActive w2 = receiving)
    by (by apply (run_steps_preserves _ wActive)).
  assert (Hspans : wSpans w2 =
            wSpans w ++
            (consumer_span this w topic None MessagingOperationValues.RECEIVE
               (Some ROOT_CONTEXT) None ::
             spans_along (process_span Buffer_toString propagator this topic)
               (process_step Buffer_toString propagator this topic) msgs w1)).
  { unfold w2. rewrite (run_steps_spans _ _ (process_step_spans topic)).
    simpl. by rewrite <- app_assoc. }
  pose proof (finalize_spec (wSpans w) _ (original payload)
                (set_wCalls
                   (fun l => l ++ [{| ocArgs := ArgsEachBatch payload;
                                      ocActive := wActive w2 |}]) w2) Hspans)
    as Hfin.
  simpl in Hfin. rewrite length_spans_along in Hfin.
  simpl. rewrite length_app. simpl.
  replace (length (wSpans w) + 1) with (S (length (wSpans w))) by lia.
  fold msgs. rewrite Hfin. rewrite Hactive. done.
Qed.
End ConsumerPatches.

(** ** Rejections and the finalizer's result *)

(** In the rejection handler only [null] makes the message computation
    throw: [typeof null] is ["object"], and [hasOwnProperty] cannot be
    applied to it. *)
Lemma errorMessage_of_throws (reason : JsValue) (e : JsValue) :
  errorMessage_of reason = Throw e <-> reason = JsNull /\ e = TypeError_ToObject.
Proof.
  split.
  - destruct reason; simpl; try discriminate.
    + intros [= <-]. done.
    + unfold errorMessage_of. simpl.
      by destruct (bool_decide (is_Some (assoc "message" own))).
  - intros [-> ->]. done.
Qed.

Lemma errorMessage_of_string (s : string) :
  errorMessage_of (JsString s) = Normal (JsString s).
Proof. done. Qed.

Lemma errorMessage_of_object (addr : nat) (own : list (string * JsValue)) :
  errorMessage_of (JsObject addr own) = Normal (default JsUndefined (assoc "message" own)).
Proof.
  unfold errorMessage_of. simpl.
  by destruct (assoc "message" own) as [v|].
Qed.

(** How the promise returned by the finalizer settles, for any span set. *)
Lemma endSpansOnPromise_settlement (spans : list nat) (sendPromise : Returned) (w : World) :
  (_endSpansOnPromise spans sendPromise w).1 =
  match Promise_resolve sendPromise with
  | Rejected reason =>
      match errorMessage_of reason with
      | Normal _ => Rejected reason
      | Throw e => Rejected e
      end
  | p => p
  end.
Proof.
  unfold _endSpansOnPromise, bind.
  destruct (Promise_resolve sendPromise) as [v|reason|]; simpl.
  - unfold bind. by destruct (forEach span_end spans w).
  - destruct (errorMessage_of reason) as [msg|e]; simpl; unfold bind.
    + destruct (forEach _ spans w) as [u w1]. simpl.
      unfold bind. by destruct (forEach span_end spans w1).
    + by destruct (forEach span_end spans w).
  - done.
Qed.

(** The finalizer is transparent for every fulfilment, for a promise that
    stays pending, and for every rejection reason but [null]. *)
Lemma endSpansOnPromise_transparent (spans : list nat) (sendPromise : Returned) (w : World) :
  Promise_resolve sendPromise <> Rejected JsNull ->
  (_endSpansOnPromise spans sendPromise w).1 = Promise_resolve sendPromise.
Proof.
  intros Hnull. rewrite endSpansOnPromise_settlement.
  destruct (Promise_resolve sendPromise) as [v|reason|]; try done.
  destruct (errorMessage_of reason) as [msg|e] eqn:He; [done|].
  apply errorMessage_of_throws in He as [-> _]. done.
Qed.

(** C2, on the code: the promise returned by the finalizer does not always
    reject with the original reason.  When the wrapped promise rejects with
    [null], the rejection handler itself throws (it applies [hasOwnProperty]
    to [null]), and the returned promise rejects with that [TypeError]
    instead of [null], whatever the span set. *)
Theorem endSpansOnPromise_null_reason (spans : list nat) (w : World) :
  (_endSpansOnPromise spans (ReturnsPromise (Rejected JsNull)) w).1 =
    Rejected TypeError_ToObject /\
  (_endSpansOnPromise spans (ReturnsPromise (Rejected JsNull)) w).1 <>
    Rejected JsNull.
Proof.
  rewrite endSpansOnPromise_settlement. simpl. split; [done|discriminate].
Qed.

(** C3, on the code: a rejection with [null] ends the spans without ever
    setting their status.  Each span of the set receives [end()] as its only
    call, where the claim promises an error status with an undefined
    message first. *)
Theorem endSpansOnPromise_null_no_status (old news : list SpanData) (w : World) :
  wSpans
    (_endSpansOnPromise (seq (length old) (length news))
       (ReturnsPromise (Rejected JsNull))
       (set_wSpans (fun _ => old ++ news) w)).2 =
  old ++ map (add_calls [CallEnd]) news.
Proof.
  pose proof (finalize_spec old news (Normal (ReturnsPromise (Rejected JsNull)))
                (set_wSpans (fun _ => old ++ news) w) eq_refl) as Hfin.
  unfold finalize in Hfin. unfold bind in Hfin.
  destruct (_endSpansOnPromise _ _ _) as [p w1]. simpl in *.
  by inversion Hfin.
Qed.

(** ** Counting [end()] calls *)

Lemma count_ends_app (cs1 cs2 : list SpanCall) :
  count_ends (cs1 ++ cs2) = count_ends cs1 + count_ends cs2.
Proof.
  induction cs1 as [|c cs1 IH]; simpl; [done|]. destruct c; simpl; by rewrite ?IH.
Qed.

Lemma count_ends_setAttribute (cs : list SpanCall) :
  forallb is_setAttribute cs = true -> count_ends cs = 0.
Proof.
  induction cs as [|c cs IH]; simpl; [done|]. destruct c; simpl; try done.
Qed.

Lemma module_version_calls_setAttribute (this : KafkaJsInstrumentation) :
  forallb is_setAttribute (module_version_calls this) = true.
Proof.
  unfold module_version_calls.
  by destruct (moduleVersionAttributeName (_config this)), (moduleVersion this).
Qed.

Lemma hook_calls_setAttribute (r : option HookRun) :
  forallb is_setAttribute (hook_calls r) = true.
Proof.
  destruct r as [r|]; simpl; [|done].
  induction (hrAttributes r) as [|kv l IH]; simpl; done.
Qed.

Lemma forallb_app_true {A} (f : A -> bool) (l1 l2 : list A) :
  forallb f l1 = true -> forallb f l2 = true -> forallb f (l1 ++ l2) = true.
Proof. intros H1 H2. rewrite forallb_app. by rewrite H1, H2. Qed.

Lemma consumer_span_calls (this : KafkaJsInstrumentation) (w : World)
    (topic : string) (message : option KafkaMessage) (operation : string)
    (context : option Context) (link : option SpanContext) :
  forallb is_setAttribute
    (spCalls (consumer_span this w topic message operation context link)) = true.
Proof.
  apply forallb_app_true;
    auto using module_version_calls_setAttribute, hook_calls_setAttribute.
Qed.

Lemma producer_span_calls (this : KafkaJsInstrumentation) (w : World)
    (topic : string) (message : nat) :
  forallb is_setAttribute (spCalls (producer_span this w topic message)) = true.
Proof.
  apply forallb_app_true;
    auto using module_version_calls_setAttribute, hook_calls_setAttribute.
Qed.

Lemma spans_along_Forall {A} (P : SpanData -> Prop) (span_of : A -> World -> SpanData)
    (step : A -> World -> World) (l : list A) (w : World) :
  (forall x w, P (span_of x w)) -> Forall P (spans_along span_of step l w).
Proof.
  intros HP. revert w. induction l as [|x l IH]; intros w; simpl; auto.
Qed.

(** Each span started on the way to [w'] has been ended as often as the
    calls [cs] made on it since say. *)
Lemma end_count_new (w w' : World) (news : list SpanData) (cs : list SpanCall) :
  wSpans w' = wSpans w ++ map (add_calls cs) news ->
  Forall (fun sp => forallb is_setAttribute (spCalls sp) = true) news ->
  Forall (fun span => end_count w' span = count_ends cs) (new_spans w w').
Proof.
  intros Hw' Hnews. unfold new_spans. rewrite Hw', length_app, length_map.
  replace (length (wSpans w) + length news - length (wSpans w))
    with (length news) by lia.
  apply Forall_seq. intros i Hi.
  unfold end_count, span_calls. rewrite Hw'.
  rewrite lookup_app_r by lia.
  destruct (lookup_lt_is_Some_2 news (i - length (wSpans w))) as [sp Hsp]; [lia|].
  change (map (add_calls cs) news) with (add_calls cs <$> news).
  rewrite list_lookup_fmap, Hsp. simpl.
  rewrite count_ends_app.
  rewrite (count_ends_setAttribute (spCalls sp)); [done|].
  by apply (Forall_lookup_1 _ _ _ _ Hnews Hsp).
Qed.

Lemma count_ends_finalizer_calls (result : Completion Returned) :
  count_ends (finalizer_calls result) = if settles result then 1 else 0.
Proof.
  destruct result as [x|e]; simpl; [|done].
  destruct (Promise_resolve x) as [v|reason|]; simpl; try done.
  by destruct (errorMessage_of reason).
Qed.

Lemma finalizer_result_throw (result : Completion Returned) (e : JsValue) :
  result = Throw e -> finalizer_result result = Throw e.
Proof. by intros ->. Qed.

(** ** Spans are ended once the wrapped call has settled *)

Section EndedOnce.
Variable Buffer_toString : list Byte.byte -> string.
Variable propagator : TextMapPropagator.
Variable this : KafkaJsInstrumentation.

Lemma finalized_ends (result : Completion Returned) (news : list SpanData)
    (w w' : World) :
  wSpans w' = wSpans w ++ map (add_calls (finalizer_calls result)) news ->
  Forall (fun sp => forallb is_setAttribute (spCalls sp) = true) news ->
  Forall (fun span => end_count w' span = if settles result then 1 else 0)
    (new_spans w w').
Proof.
  intros Hw' Hnews. rewrite <- count_ends_finalizer_calls.
  by apply (end_count_new w w' news).
Qed.

Lemma produce_spans_fresh (pairs : list (string * nat)) (w : World) :
  Forall (fun sp => forallb is_setAttribute (spCalls sp) = true)
    (spans_along (produce_span this) (produce_step propagator this) pairs w).
Proof. apply spans_along_Forall. intros p w'. apply producer_span_calls. Qed.

Lemma process_spans_fresh (topic : string) (messages : list KafkaMessage) (w : World) :
  Forall (fun sp => forallb is_setAttribute (spCalls sp) = true)
    (spans_along (process_span Buffer_toString propagator this topic)
       (process_step Buffer_toString propagator this topic) messages w).
Proof. apply spans_along_Forall. intros p w'. apply consumer_span_calls. Qed.

(** C1, as the code has it: in each of the four patched functions, once
    the original call has returned and its promise has settled (either
    way), every span started for the operation has been ended exactly
    once; while the promise stays pending, and when the original call
    throws synchronously, none of them has been ended, and the
    synchronous throw reaches the caller unchanged. *)
Theorem spans_ended_once_after_settlement :
  (forall (original : Original ProducerRecord) record w,
     let r := _getProducerSendPatch propagator this original record w in
     (forall e, original record = Throw e -> r.1 = Throw e) /\
     Forall (fun span =>
               end_count r.2 span = if settles (original record) then 1 else 0)
       (new_spans w r.2)) /\
  (forall (original : Original ProducerBatch) batch w,
     let r := _getProducerSendBatchPatch propagator this original batch w in
     (forall e, original batch = Throw e -> r.1 = Throw e) /\
     Forall (fun span =>
               end_count r.2 span = if settles (original batch) then 1 else 0)
       (new_spans w r.2)) /\
  (forall (original : Original EachMessagePayload) payload w,
     let r := _getConsumerEachMessagePatch Buffer_toString propagator this
                original payload w in
     (forall e, original payload = Throw e -> r.1 = Throw e) /\
     Forall (fun span =>
               end_count r.2 span = if settles (original payload) then 1 else 0)
       (new_spans w r.2)) /\
  (forall (original : Original EachBatchPayload) payload w,
     let r := _getConsumerEachBatchPatch Buffer_toString propagator this
                original payload w in
     (forall e, original payload = Throw e -> r.1 = Throw e) /\
     Forall (fun span =>
               end_count r.2 span = if settles (original payload) then 1 else 0)
       (new_spans w r.2)).
Proof.
  repeat split.
  - intros e He. rewrite send_spec. by apply finalizer_result_throw.
  - rewrite send_spec. eapply finalized_ends; [done|apply produce_spans_fresh].
  - intros e He. rewrite sendBatch_spec. by apply finalizer_result_throw.
  - rewrite sendBatch_spec. eapply finalized_ends; [done|apply produce_spans_fresh].
  - intros e He. rewrite eachMessage_spec. by apply finalizer_result_throw.
  - rewrite eachMessage_spec. eapply finalized_ends; [done|].
    repeat constructor. apply consumer_span_calls.
  - intros e He. rewrite eachBatch_spec. by apply finalizer_result_throw.
  - rewrite eachBatch_spec. eapply finalized_ends; [done|].
    constructor; [apply consumer_span_calls|apply process_spans_fresh].
Qed.
(** The spans in question are as many as the operation has messages (one
    more for the receive span of a batch). *)
Lemma new_spans_count (w w' : World) (news : list SpanData) :
  wSpans w' = wSpans w ++ news ->
  new_spans w w' = seq (length (wSpans w)) (length news).
Proof.
  intros Hw'. unfold new_spans. rewrite Hw', length_app. f_equal. lia.
Qed.

Lemma send_new_spans (original : Original ProducerRecord) (record : ProducerRecord)
    (w : World) :
  new_spans w (_getProducerSendPatch propagator this original record w).2 =
  seq (length (wSpans w)) (length (prMessages record)).
Proof.
  rewrite send_spec. erewrite new_spans_count; [|reflexivity].
  unfold record_pairs. by rewrite !length_map, length_spans_along, length_map.
Qed.

Lemma eachBatch_new_spans (original : Original EachBatchPayload)
    (payload : EachBatchPayload) (w : World) :
  new_spans w
    (_getConsumerEachBatchPatch Buffer_toString propagator this original payload w).2 =
  seq (length (wSpans w)) (S (length (bMessages (ebpBatch payload)))).
Proof.
  rewrite eachBatch_spec. erewrite new_spans_count; [|reflexivity].
  simpl. by rewrite length_map, length_spans_along.
Qed.
End EndedOnce.

(** ** Producer span creation, message by message *)

Lemma spans_along_Forall2 {A} (I : World -> Prop) (P : A -> SpanData -> Prop)
    (span_of : A -> World -> SpanData) (step : A -> World -> World)
    (l : list A) (w : World) :
  I w ->
  (forall x w, I w -> I (step x w)) ->
  (forall x w, I w -> P x (span_of x w)) ->
  Forall2 P l (spans_along span_of step l w).
Proof.
  intros Hw Hstep HP. revert w Hw.
  induction l as [|x l IH]; intros w Hw; simpl; constructor; auto.
Qed.

Lemma length_flat_pairs (groups : list TopicMessages) :
  length (flat_pairs groups) = sum_list (map (fun g => length (tmMessages g)) groups).
Proof.
  unfold flat_pairs. induction groups as [|g gs IH]; simpl; [done|].
  by rewrite length_app, length_map, IH.
Qed.

Lemma set_fields_snoc (fields : list (string * string)) (k v : string) (c : Headers) :
  set_fields (fields ++ [(k, v)]) c = <[k := HvString v]> (set_fields fields c).
Proof. unfold set_fields. by rewrite foldl_app. Qed.

(** Writing fields one after the other leaves, at each key, the value
    written last. *)
Lemma set_fields_written_last (fields : list (string * string)) (before : Headers) :
  written fields before (set_fields fields before).
Proof.
  induction fields as [|[k0 v0] fields IH] using List.rev_ind; intros k.
  - done.
  - rewrite set_fields_snoc, rev_unit. simpl.
    destruct (String.eqb_spec k k0) as [->|Hne].
    + apply lookup_insert_eq.
    + rewrite lookup_insert_ne by done. apply IH.
Qed.

Lemma run_steps_cons {A} (step : A -> World -> World) (x : A) (l : list A) (w : World) :
  run_steps step (x :: l) w = run_steps step l (step x w).
Proof. done. Qed.

Section ProducerCreation.
Variable propagator : TextMapPropagator.
Variable this : KafkaJsInstrumentation.

Abbreviation step := (produce_step propagator this).

Lemma produce_step_payload (m : nat) (pairs : list (string * nat)) (w : World) :
  msgKey (wMessages (run_steps step pairs w) !!! m) = msgKey (wMessages w !!! m) /\
  msgValue (wMessages (run_steps step pairs w) !!! m) = msgValue (wMessages w !!! m).
Proof.
  pose proof (run_steps_preserves step
                (fun w => (msgKey (wMessages w !!! m), msgValue (wMessages w !!! m)))
                pairs w) as H.
  simpl in H. assert (Hpair : forall {X Y} (a c : X) (b d : Y),
                        (a, b) = (c, d) -> a = c /\ b = d) by (intros; by simplify_eq).
  apply Hpair, H. clear. intros [topic message] w. simpl.
  destruct (decide (message = m)) as [->|Hne].
  - by rewrite lookup_total_insert_eq.
  - by rewrite lookup_total_insert_ne.
Qed.

(** One creation: the message and its header object afterwards. *)
Lemma produce_step_own (p : string * nat) (w : World) :
  msgHeaders (wMessages (step p w) !!! snd p) = Some (headers_ref w (snd p)) /\
  wHeaders (step p w) !! headers_ref w (snd p) =
    Some (set_fields
            (inject_fields propagator (trace_setSpan (wActive w) (length (wSpans w))))
            (headers_before w (snd p))).
Proof.
  simpl. rewrite lookup_total_insert_eq. split; [done|]. apply lookup_insert_eq.
Qed.

(** One creation: what it leaves alone. *)
Lemma produce_step_message (p : string * nat) (m : nat) (w : World) :
  m <> snd p -> wMessages (step p w) !! m = wMessages w !! m.
Proof. intros Hne. simpl. by apply lookup_insert_ne. Qed.

Lemma produce_step_message_total (p : string * nat) (m : nat) (w : World) :
  m <> snd p -> wMessages (step p w) !!! m = wMessages w !!! m.
Proof. intros Hne. simpl. by apply lookup_total_insert_ne. Qed.

Lemma headers_ref_apart (m h : nat) (w : World) :
  h ∈ dom (wHeaders w) -> msgHeaders (wMessages w !!! m) <> Some h ->
  headers_ref w m <> h.
Proof.
  intros Hdom Hm. unfold headers_ref.
  destruct (msgHeaders (wMessages w !!! m)) as [h0|]; [congruence|].
  intros <-. by apply is_fresh in Hdom.
Qed.

Lemma produce_step_header (p : string * nat) (h : nat) (w : World) :
  h ∈ dom (wHeaders w) -> msgHeaders (wMessages w !!! snd p) <> Some h ->
  wHeaders (step p w) !! h = wHeaders w !! h.
Proof.
  intros Hdom Hm. simpl. apply lookup_insert_ne. by apply headers_ref_apart.
Qed.

Lemma produce_step_dom (p : string * nat) (h : nat) (w : World) :
  h ∈ dom (wHeaders w) -> h ∈ dom (wHeaders (step p w)).
Proof. intros Hdom. simpl. rewrite dom_insert. set_solver. Qed.

(** A message and a header object that the creations of a run do not
    concern are as they were after the run. *)
Lemma produce_steps_apart (pairs : list (string * nat)) (m h : nat) (w : World) :
  m ∉ pairs.*2 ->
  h ∈ dom (wHeaders w) ->
  (forall m', m' ∈ pairs.*2 -> msgHeaders (wMessages w !!! m') <> Some h) ->
  wMessages (run_steps step pairs w) !!! m = wMessages w !!! m /\
  wHeaders (run_steps step pairs w) !! h = wHeaders w !! h.
Proof.
  revert w. induction pairs as [|p0 rest IH]; intros w Hm Hdom Hrefs; [done|].
  rewrite fmap_cons in Hm, Hrefs. apply not_elem_of_cons in Hm as [Hne Hm].
  rewrite run_steps_cons.
  assert (Hh0 : headers_ref w (snd p0) <> h).
  { apply headers_ref_apart; [done|]. apply Hrefs. by left. }
  destruct (IH (step p0 w)) as [IHm IHh]; [done|by apply produce_step_dom| |].
  - intros m' Hm'. destruct (decide (m' = snd p0)) as [->|Hne'].
    + rewrite (proj1 (produce_step_own p0 w)). congruence.
    + rewrite produce_step_message_total by done. apply Hrefs. by right.
  - rewrite IHm, IHh. split.
    + by apply produce_step_message_total.
    + apply produce_step_header; [done|]. apply Hrefs. by left.
Qed.

(** Messages that share nothing each end up with the fields of their own
    span written over what their headers held. *)
Lemma produce_steps_separate (pairs : list (string * nat)) (w : World) :
  separate_messages w pairs ->
  forall i p, pairs !! i = Some p ->
    exists h,
      msgHeaders (wMessages (run_steps step pairs w) !!! snd p) = Some h /\
      wHeaders (run_steps step pairs w) !! h =
        Some (set_fields
                (inject_fields propagator
                   (trace_setSpan (wActive w) (length (wSpans w) + i)))
                (headers_before w (snd p))).
Proof.
  revert w. induction pairs as [|p0 rest IH]; intros w (Hdup & Halloc & Hinj) i p Hi;
    [done|].
  rewrite fmap_cons in Hdup, Halloc, Hinj.
  apply NoDup_cons in Hdup as [Hp0 Hdup].
  set (w1 := step p0 w).
  assert (Hother : forall m, m ∈ rest.*2 -> m <> snd p0) by (intros m Hm ->; done).
  assert (Hsame : forall m, m ∈ rest.*2 -> wMessages w1 !!! m = wMessages w !!! m).
  { intros m Hm. apply produce_step_message_total. by apply Hother. }
  assert (Hapart : forall m, m ∈ rest.*2 ->
            msgHeaders (wMessages w !!! m) <> Some (headers_ref w (snd p0))).
  { intros m Hm Href.
    assert (Hdom : headers_ref w (snd p0) ∈ dom (wHeaders w))
      by (apply (Halloc m); [by right|done]).
    unfold headers_ref in Href, Hdom.
    destruct (msgHeaders (wMessages w !!! snd p0)) as [h0|] eqn:Hh0.
    - apply (Hother m Hm). apply (Hinj m (snd p0) h0); [by right|by left|done|done].
    - by apply is_fresh in Hdom. }
  destruct i as [|i]; simpl in Hi.
  - injection Hi as <-. exists (headers_ref w (snd p0)).
    destruct (produce_step_own p0 w) as [Hown Hfields]. fold w1 in Hown, Hfields.
    destruct (produce_steps_apart rest (snd p0) (headers_ref w (snd p0)) w1)
      as [Hm Hh]; [done| | |].
    + apply elem_of_dom. by eexists.
    + intros m Hm. rewrite Hsame by done. by apply Hapart.
    + rewrite run_steps_cons. fold w1. rewrite Hm, Hh, Nat.add_0_r. done.
  - assert (Hp : snd p ∈ rest.*2).
    { apply list_elem_of_fmap. exists p. split; [done|].
      by apply list_elem_of_lookup_2 in Hi. }
    destruct (IH w1) with (i := i) (p := p) as (h & Hm & Hh); [|done|].
    { split; [done|]. split.
      - intros m h Hm Hmh. rewrite Hsame in Hmh by done.
        apply produce_step_dom. apply (Halloc m); [by right|done].
      - intros m m' h Hm Hm' Hmh Hmh'. rewrite Hsame in Hmh, Hmh' by done.
        apply (Hinj m m' h); [by right|by right|done|done]. }
    exists h. rewrite run_steps_cons. fold w1. split; [exact Hm|].
    rewrite Hh. f_equal.
    assert (Hbefore : headers_before w1 (snd p) = headers_before w (snd p)).
    { unfold headers_before. rewrite Hsame by done.
      destruct (msgHeaders (wMessages w !!! snd p)) as [h'|] eqn:Hh'; [|done].
      rewrite !lookup_total_alt. f_equal. apply produce_step_header.
      - apply (Halloc (snd p)); [by right|done].
      - intros Hh0. apply (Hother (snd p) Hp).
        apply (Hinj (snd p) (snd p0) h'); [by right|by left|done|done]. }
    rewrite Hbefore. f_equal. f_equal.
    unfold w1. simpl. rewrite length_app. simpl.
    replace (length (wSpans w) + 1 + i) with (length (wSpans w) + S i) by lia.
    done.
Qed.

Lemma produce_steps_own_context (pairs : list (string * nat)) (w : World) :
  separate_messages w pairs ->
  own_context_carried propagator pairs w (run_steps step pairs w).
Proof.
  intros Hsep i p Hi.
  destruct (produce_steps_separate pairs w Hsep i p Hi) as (h & Hm & Hh).
  eexists h, _. split; [exact Hm|]. split; [exact Hh|].
  apply set_fields_written_last.
Qed.

(** Once a message holds a header object it keeps holding one, and each
    creation gives its message one. *)
Lemma produce_steps_keep_headers (pairs : list (string * nat)) (m : nat) (w : World) :
  is_Some (msgHeaders (wMessages w !!! m)) ->
  is_Some (msgHeaders (wMessages (run_steps step pairs w) !!! m)).
Proof.
  revert w. induction pairs as [|p0 rest IH]; intros w Hm; [done|].
  rewrite run_steps_cons. apply IH.
  destruct (decide (m = snd p0)) as [->|Hne].
  - rewrite (proj1 (produce_step_own p0 w)). by eexists.
  - by rewrite produce_step_message_total.
Qed.

Lemma produce_steps_headers (pairs : list (string * nat)) (p : string * nat)
    (w : World) :
  p ∈ pairs ->
  is_Some (msgHeaders (wMessages (run_steps step pairs w) !!! snd p)).
Proof.
  revert w. induction pairs as [|p0 rest IH]; intros w Hp.
  - by apply elem_of_nil in Hp.
  - rewrite run_steps_cons. apply elem_of_cons in Hp as [->|Hp].
    + apply produce_steps_keep_headers.
      rewrite (proj1 (produce_step_own p0 w)). by eexists.
    + by apply IH.
Qed.

(** The span started for the i-th pair of a run. *)
Lemma produce_spans_lookup (pairs : list (string * nat)) (w : World)
    (i : nat) (p : string * nat) :
  pairs !! i = Some p ->
  exists sp,
    spans_along (produce_span this) step pairs w !! i = Some sp /\
    span_of_message this p (length (wSpans w) + i) [] sp /\
    spParent sp = ctxSpan (wActive w).
Proof.
  revert w i. induction pairs as [|p0 rest IH]; intros w i Hi; [done|].
  destruct i as [|i]; simpl in Hi.
  - injection Hi as <-. eexists. split; [reflexivity|].
    rewrite Nat.add_0_r. unfold span_of_message. simpl.
    by rewrite app_nil_r.
  - destruct (IH (step p0 w) i Hi) as (sp & Hsp & Hof & Hparent).
    exists sp. split; [exact Hsp|].
    replace (length (wSpans w) + S i) with (length (wSpans (step p0 w)) + i); [done|].
    simpl. rewrite length_app. simpl. lia.
Qed.

(** The same span once the finalizer has made its calls. *)
Lemma patched_spans_lookup (after : list SpanCall) (pairs : list (string * nat))
    (w : World) (i : nat) (p : string * nat) :
  pairs !! i = Some p ->
  exists sp,
    map (add_calls after) (spans_along (produce_span this) step pairs w) !! i =
      Some sp /\
    span_of_message this p (length (wSpans w) + i) after sp /\
    spParent sp = ctxSpan (wActive w).
Proof.
  intros Hi.
  destruct (produce_spans_lookup pairs w i p Hi)
    as (sp & Hsp & (Hname & Hkind & Hattrs & Hlinks & Hcalls) & Hparent).
  exists (add_calls after sp). split.
  - change (map ?f ?l) with (f <$> l). by rewrite list_lookup_fmap, Hsp.
  - split; [|done]. unfold span_of_message. simpl.
    rewrite Hcalls, app_nil_r, <- app_assoc. done.
Qed.

(** One creation, as a relation between the worlds before and after. *)
Lemma produce_step_injected (p : string * nat) (w : World) :
  header_injected propagator p w (length (wSpans w)) (step p w).
Proof.
  destruct (produce_step_own p w) as [Hown Hfields].
  unfold header_injected. split; [done|]. split; [by eexists|].
  split; [|split; [|split]].
  - eexists (headers_ref w (snd p)), _.
    split; [|split; [exact Hown|split; [exact Hfields|split]]].
    + unfold headers_ref.
      destruct (msgHeaders (wMessages w !!! snd p)) as [h0|]; [done|].
      apply not_elem_of_dom. apply is_fresh.
    + apply set_fields_written_last.
    + intros h' Hne. simpl. by apply lookup_insert_ne.
  - simpl. by rewrite lookup_total_insert_eq.
  - simpl. by rewrite lookup_total_insert_eq.
  - intros m Hne. by apply produce_step_message.
Qed.

Lemma Steps_run {A} (R : A -> World -> nat -> World -> Prop)
    (step' : A -> World -> World) (l : list A) (w : World) :
  (forall x w, R x w (length (wSpans w)) (step' x w)) ->
  (forall x w, length (wSpans (step' x w)) = S (length (wSpans w))) ->
  Steps R l w (seq (length (wSpans w)) (length l)) (run_steps step' l w).
Proof.
  intros HR Hlen. revert w. induction l as [|x l IH]; intros w; simpl.
  - constructor.
  - econstructor; [apply HR|]. rewrite <- (Hlen x w). apply IH.
Qed.

Lemma produce_steps_injected (pairs : list (string * nat)) (w : World) :
  Steps (header_injected propagator) pairs w
    (seq (length (wSpans w)) (length pairs)) (run_steps step pairs w).
Proof.
  apply Steps_run.
  - apply produce_step_injected.
  - intros p w'. rewrite produce_step_spans, length_app. simpl. lia.
Qed.

(** What a run of creations does to the headers of its messages. *)
Lemma produce_steps_headers_injected (pairs : list (string * nat)) (w w' : World) :
  wMessages w' = wMessages (run_steps step pairs w) ->
  wHeaders w' = wHeaders (run_steps step pairs w) ->
  headers_injected_for propagator pairs w w'.
Proof.
  intros Hm Hh. split; [|split].
  - eexists _, _. split; [apply produce_steps_injected|done].
  - intros p Hp. rewrite Hm. by apply produce_steps_headers.
  - intros Hsep i p Hi.
    destruct (produce_steps_own_context pairs w Hsep i p Hi) as (h & c & H1 & H2 & H3).
    exists h, c. by rewrite Hm, Hh.
Qed.
End ProducerCreation.

(** The sample messages share nothing: the second has the one header
    object of the store, the others have no headers. *)
Lemma sample_outbox_separate (pairs : list (string * nat)) :
  NoDup pairs.*2 ->
  (forall m, m ∈ pairs.*2 -> m = 0 \/ m = 1 \/ m = 2) ->
  separate_messages sample_outbox pairs.
Proof.
  intros Hdup Hcases. split; [done|]. split.
  - intros m h Hm Hh. destruct (Hcases m Hm) as [->|[->| ->]]; vm_compute in Hh;
      try discriminate.
    injection Hh as <-. apply elem_of_dom. by eexists.
  - intros m m' h Hm Hm' Hh Hh'.
    destruct (Hcases m Hm) as [->|[->| ->]]; vm_compute in Hh; try discriminate.
    destruct (Hcases m' Hm') as [->|[->| ->]]; vm_compute in Hh'; try discriminate.
    reflexivity.
Qed.

Lemma sample_outbox_separate_two (pairs : list (string * nat)) :
  pairs.*2 = [0; 1] -> separate_messages sample_outbox pairs.
Proof.
  intros Hpairs. apply sample_outbox_separate; rewrite Hpairs.
  - repeat (apply NoDup_cons; split;
              [intros Hin; rewrite ?elem_of_cons, elem_of_nil in Hin;
               intuition discriminate|]).
    apply NoDup_nil_2.
  - intros m Hm. rewrite !elem_of_cons, elem_of_nil in Hm. tauto.
Qed.

Lemma sample_outbox_separate_three (pairs : list (string * nat)) :
  pairs.*2 = [0; 1; 2] -> separate_messages sample_outbox pairs.
Proof.
  intros Hpairs. apply sample_outbox_separate; rewrite Hpairs.
  - repeat (apply NoDup_cons; split;
              [intros Hin; rewrite ?elem_of_cons, elem_of_nil in Hin;
               intuition discriminate|]).
    apply NoDup_nil_2.
  - intros m Hm. rewrite !elem_of_cons, elem_of_nil in Hm. tauto.
Qed.

(** ** Batch produce *)

Section BatchProduce.
Variable propagator : TextMapPropagator.
Variable this : KafkaJsInstrumentation.

(** C5: a [sendBatch] call starts exactly one PRODUCER span per message of
    the batch (N spans for N messages over the M groups), in group order
    and then in message order within the group: the i-th span started is
    the span of the i-th (topic, message) pair of that order.  It is named
    after the topic of that pair, the producer hook has been run on it with
    that very message, and, for messages that share nothing, it is the
    context of that span that the message carries in its headers.  The
    original [sendBatch] is invoked exactly once, with the very batch
    argument it was given; the key and value of every message object are as
    the caller left them.  (What span creation adds to the messages is
    their headers.) *)
Theorem sendBatch_spans_in_order (original : Original ProducerBatch)
    (batch : ProducerBatch) (w : World) :
  let r := _getProducerSendBatchPatch propagator this original batch w in
  let pairs := flat_pairs (default [] (pbTopicMessages batch)) in
  exists news : list SpanData,
    wSpans r.2 = wSpans w ++ news /\
    length news =
      sum_list (map (fun g => length (tmMessages g))
                  (default [] (pbTopicMessages batch))) /\
    (forall i p, pairs !! i = Some p ->
       exists sp, news !! i = Some sp /\
                  span_of_message this p (length (wSpans w) + i)
                    (finalizer_calls (original batch)) sp) /\
    (separate_messages w pairs -> own_context_carried propagator pairs w r.2) /\
    wCalls r.2 =
      wCalls w ++ [{| ocArgs := ArgsSendBatch batch; ocActive := wActive w |}] /\
    (forall m, msgKey (wMessages r.2 !!! m) = msgKey (wMessages w !!! m) /\
               msgValue (wMessages r.2 !!! m) = msgValue (wMessages w !!! m)).
Proof.
  intros r pairs. unfold r. rewrite sendBatch_spec. simpl.
  eexists. split; [reflexivity|]. split; [|split; [|split; [|split]]].
  - rewrite length_map, length_spans_along. apply length_flat_pairs.
  - intros i p Hi.
    destruct (patched_spans_lookup propagator this
                (finalizer_calls (original batch)) pairs w i p Hi)
      as (sp & Hsp & Hof & _).
    by exists sp.
  - apply produce_steps_own_context.
  - by rewrite produce_step_calls.
  - intros m. apply produce_step_payload.
Qed.
End BatchProduce.

(** A batch of two groups, ["orders"] with the messages 0 and 1 and
    ["audit"] with message 2.  Span 1 is the span of message 1, the second
    message of the first group, and span 2 that of message 2, of the second
    group: each is named after its group's topic, the hook has marked it
    with its message, and its message carries its context. *)
Lemma sendBatch_spans_in_order_witness :
  let r := _getProducerSendBatchPatch numbering_propagator marking_instrumentation
             (fun _ => Normal (ReturnsPromise (Fulfilled JsUndefined)))
             sample_producer_batch sample_outbox in
  exists news,
    wSpans r.2 = news /\
    length news = 3 /\
    (exists sp, news !! 1 = Some sp /\ spName sp = "orders" /\
                spCalls sp = [CallSetAttribute "message" (JsNumber 1); CallEnd]) /\
    (exists sp, news !! 2 = Some sp /\ spName sp = "audit" /\
                spCalls sp = [CallSetAttribute "message" (JsNumber 2); CallEnd]) /\
    (exists h c, msgHeaders (wMessages r.2 !!! 1) = Some h /\
                 wHeaders r.2 !! h = Some c /\
                 c !! "traceparent" = Some (HvString "span-1") /\
                 c !! "app" = Some (HvString "x")) /\
    (exists h c, msgHeaders (wMessages r.2 !!! 2) = Some h /\
                 wHeaders r.2 !! h = Some c /\
                 c !! "traceparent" = Some (HvString "span-2")).
Proof.
  destruct (sendBatch_spans_in_order numbering_propagator marking_instrumentation
              (fun _ => Normal (ReturnsPromise (Fulfilled JsUndefined)))
              sample_producer_batch sample_outbox)
    as (news & Hspans & Hlen & Hnews & Hown & _).
  specialize (Hown (sample_outbox_separate_three
                      [("orders", 0); ("orders", 1); ("audit", 2)] eq_refl)).
  exists news. split; [exact Hspans|]. split; [exact Hlen|].
  split; [|split; [|split]].
  - destruct (Hnews 1 ("orders", 1) eq_refl)
      as (sp & Hsp & Hname & _ & _ & _ & Hcalls).
    exists sp. split; [exact Hsp|]. split; [exact Hname|].
    rewrite Hcalls. reflexivity.
  - destruct (Hnews 2 ("audit", 2) eq_refl)
      as (sp & Hsp & Hname & _ & _ & _ & Hcalls).
    exists sp. split; [exact Hsp|]. split; [exact Hname|].
    rewrite Hcalls. reflexivity.
  - destruct (Hown 1 ("orders", 1) eq_refl) as (h & c & Hm & Hh & Hw).
    exists h, c. split; [exact Hm|]. split; [exact Hh|]. split.
    + rewrite (Hw "traceparent"). reflexivity.
    + rewrite (Hw "app"). reflexivity.
  - destruct (Hown 2 ("audit", 2) eq_refl) as (h & c & Hm & Hh & Hw).
    exists h, c. split; [exact Hm|]. split; [exact Hh|].
    rewrite (Hw "traceparent"). reflexivity.
Defined.

(** ** A batch without [topicMessages] *)

Section NoTopicMessages.
Variable propagator : TextMapPropagator.
Variable this : KafkaJsInstrumentation.

(** C10, as the code has it: for a batch whose [topicMessages] is absent,
    the patched [sendBatch] starts no span and invokes the original exactly
    once with the batch it was given; a synchronous throw of the original
    reaches the caller as it is, and otherwise the returned promise
    fulfils, stays pending or rejects as the original result does.  (A
    rejection with [null] is left out of the statement.) *)
Theorem sendBatch_without_topicMessages (original : Original ProducerBatch)
    (w : World) :
  let batch := {| pbTopicMessages := None |} in
  let r := _getProducerSendBatchPatch propagator this original batch w in
  wSpans r.2 = wSpans w /\
  wCalls r.2 =
    wCalls w ++ [{| ocArgs := ArgsSendBatch batch; ocActive := wActive w |}] /\
  match original batch with
  | Throw e => r.1 = Throw e
  | Normal x =>
      match Promise_resolve x with
      | Rejected JsNull => True
      | p => r.1 = Normal p
      end
  end.
Proof.
  intros batch r. unfold r. rewrite sendBatch_spec. simpl.
  split; [by rewrite app_nil_r|]. split; [done|].
  destruct (original batch) as [x|e]; simpl; [|done].
  destruct (Promise_resolve x) as [v|reason|]; try done.
  destruct reason; try done.
  by rewrite errorMessage_of_object.
Qed.
End NoTopicMessages.

(** ** Header injection *)

Section HeaderInjection.
Variable propagator : TextMapPropagator.
Variable this : KafkaJsInstrumentation.

(** C6: creating the producer span of a message makes sure the message
    holds a header object (a new, empty one if it had none) and then
    writes into that object the fields of the context that combines the
    active context with the new span, leaving every other header object
    and every other message as they were.  [send] and [sendBatch] do so
    once for each of their messages, in order, each message with a span of
    its own: the store they leave is the one reached by that run of
    creations, every message of the call holds a header object in it, and
    every message that shares neither itself nor its headers with another
    carries the fields of its own span, written over what its headers
    held. *)
Theorem producer_headers_injected :
  (forall topic message w,
     let r := _startProducerSpan propagator this topic message w in
     r.1 = Normal (length (wSpans w)) /\
     header_injected propagator (topic, message) w (length (wSpans w)) r.2) /\
  (forall (original : Original ProducerRecord) record w,
     let r := _getProducerSendPatch propagator this original record w in
     headers_injected_for propagator
       (map (pair (prTopic record)) (prMessages record)) w r.2) /\
  (forall (original : Original ProducerBatch) batch w,
     let r := _getProducerSendBatchPatch propagator this original batch w in
     headers_injected_for propagator
       (flat_pairs (default [] (pbTopicMessages batch))) w r.2).
Proof.
  split; [|split].
  - intros topic message w r. unfold r. rewrite startProducerSpan_spec.
    split; [done|]. apply (produce_step_injected propagator this (topic, message)).
  - intros original record w r. unfold r. rewrite send_spec.
    by apply (produce_steps_headers_injected propagator this).
  - intros original batch w r. unfold r. rewrite sendBatch_spec.
    by apply (produce_steps_headers_injected propagator this).
Qed.
End HeaderInjection.

(** A [send] of two messages: the first, which came without headers, holds
    a header object with the context of span 0 and nothing else; the
    second holds the header object it came with, with the context of span 1
    next to the header it had. *)
Lemma producer_headers_injected_witness :
  let r := _getProducerSendPatch numbering_propagator plain_instrumentation
             (fun _ => Normal (ReturnsPromise (Fulfilled JsUndefined)))
             sample_record_of_two sample_outbox in
  (exists h c, msgHeaders (wMessages r.2 !!! 0) = Some h /\
               wHeaders r.2 !! h = Some c /\
               c !! "traceparent" = Some (HvString "span-0") /\
               c !! "app" = None) /\
  (exists h c, msgHeaders (wMessages r.2 !!! 1) = Some h /\
               wHeaders r.2 !! h = Some c /\
               c !! "traceparent" = Some (HvString "span-1") /\
               c !! "app" = Some (HvString "x")).
Proof.
  destruct (proj1 (proj2 (producer_headers_injected numbering_propagator
                            plain_instrumentation))
              (fun _ => Normal (ReturnsPromise (Fulfilled JsUndefined)))
              sample_record_of_two sample_outbox)
    as (_ & _ & Hown).
  specialize (Hown (sample_outbox_separate_two [("orders", 0); ("orders", 1)]
                      eq_refl)).
  split.
  - destruct (Hown 0 ("orders", 0) eq_refl) as (h & c & Hm & Hh & Hw).
    exists h, c. split; [exact Hm|]. split; [exact Hh|]. split.
    + rewrite (Hw "traceparent"). reflexivity.
    + rewrite (Hw "app"). reflexivity.
  - destruct (Hown 1 ("orders", 1) eq_refl) as (h & c & Hm & Hh & Hw).
    exists h, c. split; [exact Hm|]. split; [exact Hh|]. split.
    + rewrite (Hw "traceparent"). reflexivity.
    + rewrite (Hw "app"). reflexivity.
Defined.


(** ** Hooks *)

(** What [safeExecuteInTheMiddle] does with an exception depends on its
    last argument: without it, a truthy exception is thrown again after
    [onFinish] has run. *)
Lemma safeExecuteInTheMiddle_rethrows {T} (execute : M (Completion T))
    (onFinish : JsValue -> option T -> M unit) (e : JsValue) (w w1 : World) :
  execute w = (Throw e, w1) -> truthy e = true ->
  (safeExecuteInTheMiddle execute onFinish false w).1 = Throw e.
Proof.
  intros Hex He. unfold safeExecuteInTheMiddle, bind. rewrite Hex.
  destruct (onFinish e None w1) as [u w2]. by rewrite He.
Qed.

(** With it, no exception of [execute] leaves the call. *)
Lemma safeExecuteInTheMiddle_contains {T} (execute : M (Completion T))
    (onFinish : JsValue -> option T -> M unit) (w : World) :
  exists result, (safeExecuteInTheMiddle execute onFinish true w).1 = Normal result.
Proof.
  unfold safeExecuteInTheMiddle, bind.
  destruct (execute w) as [[result|e] w1].
  - destruct (onFinish JsUndefined (Some result) w1). by eexists.
  - destruct (onFinish e None w1). rewrite andb_false_r. by eexists.
Qed.

Lemma finalizer_result_throws (result : Completion Returned) (e : JsValue) :
  finalizer_result result = Throw e -> result = Throw e.
Proof. destruct result as [x|e']; simpl; [discriminate|]. by intros [= ->]. Qed.

Section Hooks.
Variable Buffer_toString : list Byte.byte -> string.
Variable propagator : TextMapPropagator.
Variable this : KafkaJsInstrumentation.

(** C9, as the code has it: a hook that throws never keeps span creation
    from starting and returning its span: whatever the hook does, the
    factory completes normally with the new span.  What the hook throws
    goes no further than the call site -- a patched function throws only
    what the original function threw -- and it is logged when it is truthy
    (a thrown [undefined], [null], [0], [false] or empty string passes
    unlogged).  The consumer hook is run only when a message is given:
    without one, as for the batch receive span, the span receives the
    module version attribute at most and nothing is logged. *)
Theorem hook_failures_contained (topic : string) (w : World) :
  (forall message,
     let r := _startProducerSpan propagator this topic message w in
     r.1 = Normal (length (wSpans w)) /\
     (exists sp, wSpans r.2 = wSpans w ++ [sp] /\ spKind sp = PRODUCER) /\
     wDiag r.2 =
       wDiag w ++
       match producerHook (_config this) with
       | Some hook =>
           match hrThrows (hook (length (wSpans w)) topic message) with
           | Some e => if truthy e then [(producerHook_error, e)] else []
           | None => []
           end
       | None => []
       end) /\
  (forall message operation context link,
     let r := _startConsumerSpan this topic message operation context link w in
     r.1 = Normal (length (wSpans w)) /\
     (exists sp, wSpans r.2 = wSpans w ++ [sp] /\ spKind sp = CONSUMER) /\
     wDiag r.2 =
       wDiag w ++
       match consumerHook (_config this), message with
       | Some hook, Some m =>
           match hrThrows (hook (length (wSpans w)) topic m) with
           | Some e => if truthy e then [(consumerHook_error, e)] else []
           | None => []
           end
       | _, _ => []
       end) /\
  (forall operation context link,
     let r := _startConsumerSpan this topic None operation context link w in
     span_calls r.2 (length (wSpans w)) = module_version_calls this /\
     wDiag r.2 = wDiag w) /\
  (forall (original : Original ProducerRecord) record e,
     (_getProducerSendPatch propagator this original record w).1 = Throw e ->
     original record = Throw e) /\
  (forall (original : Original ProducerBatch) batch e,
     (_getProducerSendBatchPatch propagator this original batch w).1 = Throw e ->
     original batch = Throw e) /\
  (forall (original : Original EachMessagePayload) payload e,
     (_getConsumerEachMessagePatch Buffer_toString propagator this
        original payload w).1 = Throw e ->
     original payload = Throw e) /\
  (forall (original : Original EachBatchPayload) payload e,
     (_getConsumerEachBatchPatch Buffer_toString propagator this
        original payload w).1 = Throw e ->
     original payload = Throw e).
Proof.
  split; [|split; [|split; [|split; [|split; [|split]]]]].
  - intros message r. unfold r. rewrite startProducerSpan_spec. simpl.
    split; [done|]. split; [by eexists|].
    unfold producer_hook_run. by destruct (producerHook (_config this)).
  - intros message operation context link r. unfold r.
    rewrite startConsumerSpan_spec. simpl.
    split; [done|]. split; [by eexists|].
    unfold consumer_hook_run.
    by destruct (consumerHook (_config this)), message.
  - intros operation context link r. unfold r.
    rewrite startConsumerSpan_spec. simpl. unfold span_calls. simpl.
    rewrite lookup_app_r by lia. rewrite Nat.sub_diag. simpl.
    unfold consumer_hook_run.
    destruct (consumerHook (_config this)); simpl; by rewrite !app_nil_r.
  - intros original record e. rewrite send_spec. apply finalizer_result_throws.
  - intros original batch e. rewrite sendBatch_spec. apply finalizer_result_throws.
  - intros original payload e. rewrite eachMessage_spec.
    apply finalizer_result_throws.
  - intros original payload e. rewrite eachBatch_spec.
    apply finalizer_result_throws.
Qed.
End Hooks.

(** A producer hook that throws the string ["boom"]: the span is started
    and returned all the same, and the string is logged. *)
Lemma hook_failures_contained_witness :
  let this := throwing_instrumentation (JsString "boom") in
  let r := _startProducerSpan sample_propagator this "orders" 0 sample_world in
  hrThrows <$> producer_hook_run this 0 "orders" 0 = Some (Some (JsString "boom")) /\
  r.1 = Normal 0 /\
  wDiag r.2 = [(producerHook_error, JsString "boom")].
Proof.
  destruct (proj1 (hook_failures_contained sample_toString sample_propagator
                     (throwing_instrumentation (JsString "boom")) "orders"
                     sample_world) 0)
    as (Hr & _ & Hdiag).
  split; [reflexivity|]. split; [exact Hr|]. rewrite Hdiag. reflexivity.
Defined.

(** ** Consuming *)

Section Consume.
Variable Buffer_toString : list Byte.byte -> string.
Variable propagator : TextMapPropagator.
Variable this : KafkaJsInstrumentation.


(** C4, as the code has it: [eachBatch] over a batch of N messages starts
    one receive span, without parent or link, and after it N process
    spans, one per message and in message order.  Each process span
    carries as a link the span context decoded from its own message's
    headers, when there is one, and no link otherwise.  The process spans
    are started under the ambient context, in which the receive span has
    just been made active: the receive span is their parent.  The
    original handler is invoked once, with the receive span active. *)
Theorem eachBatch_span_graph (original : Original EachBatchPayload)
    (payload : EachBatchPayload) (w : World) :
  let topic := bTopic (ebpBatch payload) in
  let receive := length (wSpans w) in
  let r := _getConsumerEachBatchPatch Buffer_toString propagator this
             original payload w in
  exists recv procs,
    wSpans r.2 = wSpans w ++ recv :: procs /\
    spKind recv = CONSUMER /\
    spAttributes recv = consumer_attributes topic "receive" /\
    spParent recv = None /\
    spLinks recv = [] /\
    Forall2
      (fun message sp =>
         spKind sp = CONSUMER /\
         spAttributes sp = consumer_attributes topic "process" /\
         spLinks sp =
           match trace_getSpanContext
                   (propagation_extract Buffer_toString propagator ROOT_CONTEXT
                      (kmHeaders message)) with
           | Some remote => [remote]
           | None => []
           end /\
         spParent sp = Some (LocalSpan receive))
      (bMessages (ebpBatch payload)) procs /\
    wCalls r.2 =
      wCalls w ++ [{| ocArgs := ArgsEachBatch payload;
                      ocActive := trace_setSpan (wActive w) receive |}].
Proof.
  intros topic receive r. unfold r. rewrite eachBatch_spec. simpl.
  eexists _, _. split; [reflexivity|]. simpl.
  split; [done|]. split; [done|]. split; [done|]. split; [done|]. split.
  - change (map ?f ?l) with (f <$> l). apply Forall2_fmap_r.
    apply (spans_along_Forall2
             (fun w' => wActive w' = trace_setSpan (wActive w) receive)).
    + done.
    + by intros m w' Hw'.
    + intros m w' Hw'. simpl. by rewrite Hw'.
  - f_equal. rewrite (run_steps_preserves _ wCalls); done.
Qed.
End Consume.

(** ** The carrier adapter *)

Lemma inherited_toString_None (key : string) :
  inherited_toString key = None <->
  ((key ∉ Object_prototype_methods) /\ key <> "__proto__").
Proof.
  unfold inherited_toString.
  destruct (String.eqb_spec key "constructor") as [->|Hc].
  - split; [done|]. intros [Hm _]. exfalso. apply Hm. by left.
  - destruct (bool_decide_reflect (key ∈ Object_prototype_methods)) as [Hm|Hm].
    + split; [done|]. by intros [Hm' _].
    + destruct (String.eqb_spec key "__proto__") as [->|Hp].
      * split; [done|]. by intros [_ Hp].
      * done.
Qed.

(** C8, as the code has it: [get] gives the value at the key as a string
    -- a string value as it is, a buffer through its [toString], an array
    as its elements joined by commas -- and [undefined] when the carrier is
    absent or the value at the key is [undefined].  For a key the carrier
    does not own, [get] reads on through the prototype: it gives
    [undefined] only when [Object.prototype] has no such property either,
    and the string form of the inherited property otherwise.  [keys] gives
    exactly the own keys of the carrier, each once, and the empty sequence
    when the carrier is absent.  Both are functions of their arguments
    alone: they read the carrier and change nothing. *)
Theorem bufferTextMapGetter_contract (Buffer_toString : list Byte.byte -> string) :
  (forall key, bufferTextMapGetter_get Buffer_toString None key = None) /\
  (forall (c : Headers) key s,
     bufferTextMapGetter_get Buffer_toString (Some (<[key := HvString s]> c)) key =
     Some s) /\
  (forall (c : Headers) key bytes,
     bufferTextMapGetter_get Buffer_toString (Some (<[key := HvBuffer bytes]> c)) key =
     Some (Buffer_toString bytes)) /\
  (forall (c : Headers) key items,
     bufferTextMapGetter_get Buffer_toString (Some (<[key := HvArray items]> c)) key =
     Some (String.concat ","
             (map (fun i => match i with
                            | HiString s => s
                            | HiBuffer bytes => Buffer_toString bytes
                            end) items))) /\
  (forall (c : Headers) key,
     bufferTextMapGetter_get Buffer_toString (Some (<[key := HvUndefined]> c)) key =
     None) /\
  (forall (c : Headers) key,
     c !! key = None ->
     (key ∉ Object_prototype_methods -> key <> "__proto__" ->
      bufferTextMapGetter_get Buffer_toString (Some c) key = None) /\
     (key ∈ Object_prototype_methods ->
      bufferTextMapGetter_get Buffer_toString (Some c) key =
      Some ("function " ++ (if String.eqb key "constructor" then "Object" else key)
              ++ "() { [native code] }")%string) /\
     (key = "__proto__" ->
      bufferTextMapGetter_get Buffer_toString (Some c) key =
      Some "[object Object]")) /\
  bufferTextMapGetter_keys None = [] /\
  (forall (c : Headers),
     NoDup (bufferTextMapGetter_keys (Some c)) /\
     forall key, key ∈ bufferTextMapGetter_keys (Some c) <-> is_Some (c !! key)).
Proof.
  split; [done|]. split; [|split; [|split; [|split; [|split; [|split; [done|]]]]]].
  - intros c key s'. simpl. by rewrite lookup_insert_eq.
  - intros c key bytes. simpl. by rewrite lookup_insert_eq.
  - intros c key items. simpl. by rewrite lookup_insert_eq.
  - intros c key. simpl. by rewrite lookup_insert_eq.
  - intros c key Hkey. simpl. rewrite Hkey. split; [|split].
    + intros Hm Hp. by apply inherited_toString_None.
    + intros Hm. unfold inherited_toString, native_function_toString.
      destruct (String.eqb key "constructor"); [done|].
      by rewrite bool_decide_eq_true_2.
    + intros ->. done.
  - intros c. split; [apply NoDup_fst_map_to_list|]. intros key. simpl. split.
    + intros Hin. apply list_elem_of_fmap in Hin as [[k v] [-> Hkv]].
      apply elem_of_map_to_list in Hkv. by eexists.
    + intros [v Hv]. apply list_elem_of_fmap. exists (key, v).
      split; [done|]. by apply elem_of_map_to_list.
Qed.

(** ** Concrete runs *)

(** C1 fails as stated: [send] of one message whose original throws
    synchronously hands the throw on, and the span it had started is never
    ended. *)
Lemma send_sync_throw_leaves_span_open :
  let r := _getProducerSendPatch sample_propagator plain_instrumentation
             (fun _ => Throw (JsString "boom")) sample_record sample_world in
  r.1 = Throw (JsString "boom") /\
  new_spans sample_world r.2 = [0] /\
  end_count r.2 0 = 0 /\
  ~ all_ended_once sample_world r.2.
Proof.
  cbv zeta.
  assert (Hnew : new_spans sample_world
                   (_getProducerSendPatch sample_propagator plain_instrumentation
                      (fun _ => Throw (JsString "boom")) sample_record
                      sample_world).2 = [0]) by (vm_compute; reflexivity).
  split; [vm_compute; reflexivity|]. split; [exact Hnew|].
  split; [vm_compute; reflexivity|].
  unfold all_ended_once. rewrite Hnew. intros Hall.
  apply Forall_cons in Hall as [Hend _]. vm_compute in Hend. discriminate.
Qed.

(** C4 fails as stated: in a batch of one message, span 0 is the receive
    span, span 1 the process span, and the receive span is the parent of the
    process span. *)
Lemma eachBatch_process_span_is_child :
  let r := _getConsumerEachBatchPatch sample_toString sample_propagator
             plain_instrumentation
             (fun _ => Normal (ReturnsPromise (Fulfilled JsUndefined)))
             sample_batch_payload sample_world in
  spAttributes <$> wSpans r.2 !! 0 = Some (consumer_attributes "events" "receive") /\
  spAttributes <$> wSpans r.2 !! 1 = Some (consumer_attributes "events" "process") /\
  spParent <$> wSpans r.2 !! 1 = Some (Some (LocalSpan 0)) /\
  ~ not_child_of r.2 1 0.
Proof.
  cbv zeta. split; [vm_compute; reflexivity|]. split; [vm_compute; reflexivity|].
  split; [vm_compute; reflexivity|].
  intros Hnot.
  destruct (wSpans (_getConsumerEachBatchPatch sample_toString sample_propagator
                      plain_instrumentation
                      (fun _ => Normal (ReturnsPromise (Fulfilled JsUndefined)))
                      sample_batch_payload sample_world).2 !! 1) as [sp|] eqn:Hsp.
  - apply (Hnot sp Hsp). vm_compute in Hsp. by injection Hsp as <-.
  - vm_compute in Hsp. discriminate.
Qed.

(** C9 fails as stated: a consumer hook that throws [null] is run and
    caught, and nothing is logged. *)
Lemma falsy_hook_error_not_logged :
  let this := throwing_instrumentation JsNull in
  let r := _startConsumerSpan this "events" (Some sample_message) "process"
             None None sample_world in
  hrThrows <$> consumer_hook_run this 0 "events" (Some sample_message) =
    Some (Some JsNull) /\
  r.1 = Normal 0 /\
  wDiag r.2 = [] /\
  ~ logged r.2 JsNull.
Proof.
  cbv zeta. split; [reflexivity|]. split; [vm_compute; reflexivity|].
  assert (Hdiag : wDiag (_startConsumerSpan (throwing_instrumentation JsNull)
                           "events" (Some sample_message) "process"
                           None None sample_world).2 = [])
    by (vm_compute; reflexivity).
  split; [exact Hdiag|].
  intros [message Hin]. rewrite Hdiag in Hin. by apply elem_of_nil in Hin.
Qed.

(** C10 fails as stated: with an original that throws synchronously, the
    patched [sendBatch] of a batch without [topicMessages] throws and
    returns no promise. *)
Lemma sendBatch_sync_throw_returns_no_promise :
  let r := _getProducerSendBatchPatch sample_propagator plain_instrumentation
             (fun _ => Throw (JsString "boom")) sample_empty_batch sample_world in
  r.1 = Throw (JsString "boom") /\ ~ exists p, r.1 = Normal p.
Proof.
  cbv zeta.
  assert (Hr : (_getProducerSendBatchPatch sample_propagator plain_instrumentation
                  (fun _ => Throw (JsString "boom")) sample_empty_batch
                  sample_world).1 = Throw (JsString "boom"))
    by (vm_compute; reflexivity).
  split; [exact Hr|]. intros [p Hp]. rewrite Hr in Hp. discriminate.
Qed.

(** The same batch with an original whose promise rejects with [null]: the
    returned promise rejects with the [TypeError] of the rejection handler. *)
Lemma sendBatch_null_rejection :
  (_getProducerSendBatchPatch sample_propagator plain_instrumentation
     (fun _ => Normal (ReturnsPromise (Rejected JsNull))) sample_empty_batch
     sample_world).1 = Normal (Rejected TypeError_ToObject).
Proof. vm_compute. reflexivity. Qed.

(** C8 fails as stated: an empty header object has no key [constructor],
    yet [get] does not give [undefined] for it: it gives the text of the
    function the object inherits.  The same holds for the other properties
    of [Object.prototype]. *)
Lemma absent_key_read_from_prototype :
  (∅ : Headers) !! "constructor" = None /\
  bufferTextMapGetter_keys (Some ∅) = [] /\
  bufferTextMapGetter_get sample_toString (Some ∅) "constructor" =
    Some "function Object() { [native code] }" /\
  bufferTextMapGetter_get sample_toString (Some ∅) "toString" =
    Some "function toString() { [native code] }" /\
  bufferTextMapGetter_get sample_toString (Some ∅) "__proto__" =
    Some "[object Object]" /\
  bufferTextMapGetter_get sample_toString (Some ∅) "constructor" <> None.
Proof.
  split; [done|]. split; [done|]. split; [vm_compute; reflexivity|].
  split; [vm_compute; reflexivity|]. split; [vm_compute; reflexivity|].
  vm_compute. discriminate.
Qed.


(** The same on a message without headers: the process span has no
    parent. *)
Lemma eachMessage_without_headers :
  let r := _getConsumerEachMessagePatch sample_toString sample_propagator
             plain_instrumentation
             (fun _ => Normal (ReturnsPromise (Fulfilled JsUndefined)))
             sample_payload sample_world in
  r.1 = Normal (Fulfilled JsUndefined) /\
  spParent <$> wSpans r.2 !! 0 = Some None.
Proof. split; vm_compute; reflexivity. Qed.


(** ** What each patched function returns and does to its spans *)

Lemma errorMessage_of_not_null (reason : JsValue) :
  reason <> JsNull -> errorMessage_of reason = Normal (rejection_message reason).
Proof.
  intros Hnull. destruct reason; try done.
  apply errorMessage_of_object.
Qed.

Lemma finalizer_result_caller_sees (result : Completion Returned) :
  finalizer_result result = caller_sees result.
Proof.
  destruct result as [x|e]; simpl; [|done].
  destruct (Promise_resolve x) as [v|reason|]; try done.
  destruct reason; try done. by rewrite errorMessage_of_object.
Qed.

Lemma span_received_new (w w' : World) (news : list SpanData) (cs : list SpanCall) :
  wSpans w' = wSpans w ++ map (add_calls cs) news ->
  Forall (fun sp => forallb is_setAttribute (spCalls sp) = true) news ->
  Forall (span_received w' cs) (new_spans w w').
Proof.
  intros Hw' Hnews. unfold new_spans. rewrite Hw', length_app, length_map.
  replace (length (wSpans w) + length news - length (wSpans w))
    with (length news) by lia.
  apply Forall_seq. intros i Hi.
  unfold span_received, span_calls. rewrite Hw'.
  rewrite lookup_app_r by lia.
  destruct (lookup_lt_is_Some_2 news (i - length (wSpans w))) as [sp Hsp]; [lia|].
  change (map (add_calls cs) news) with (add_calls cs <$> news).
  rewrite list_lookup_fmap, Hsp. simpl.
  exists (spCalls sp). split; [|done].
  by apply (Forall_lookup_1 _ _ _ _ Hnews Hsp).
Qed.

Section Outcomes.
Variable Buffer_toString : list Byte.byte -> string.
Variable propagator : TextMapPropagator.
Variable this : KafkaJsInstrumentation.

(** The spans of each patched function have received, after the attribute
    calls of their creation, exactly the calls of the finalizer. *)
Lemma patched_spans_received :
  (forall (original : Original ProducerRecord) record w,
     let r := _getProducerSendPatch propagator this original record w in
     Forall (span_received r.2 (finalizer_calls (original record)))
       (new_spans w r.2)) /\
  (forall (original : Original ProducerBatch) batch w,
     let r := _getProducerSendBatchPatch propagator this original batch w in
     Forall (span_received r.2 (finalizer_calls (original batch)))
       (new_spans w r.2)) /\
  (forall (original : Original EachMessagePayload) payload w,
     let r := _getConsumerEachMessagePatch Buffer_toString propagator this
                original payload w in
     Forall (span_received r.2 (finalizer_calls (original payload)))
       (new_spans w r.2)) /\
  (forall (original : Original EachBatchPayload) payload w,
     let r := _getConsumerEachBatchPatch Buffer_toString propagator this
                original payload w in
     Forall (span_received r.2 (finalizer_calls (original payload)))
       (new_spans w r.2)).
Proof.
  repeat split; intros original args w r; unfold r.
  - rewrite send_spec. eapply span_received_new; [done|].
    apply produce_spans_fresh.
  - rewrite sendBatch_spec. eapply span_received_new; [done|].
    apply produce_spans_fresh.
  - rewrite eachMessage_spec. eapply span_received_new; [done|].
    repeat constructor. apply consumer_span_calls.
  - rewrite eachBatch_spec. eapply span_received_new; [done|].
    constructor; [apply consumer_span_calls|apply process_spans_fresh].
Qed.

(** X1: what the caller of any of the four patched functions gets is what
    the original produced: its synchronous throw, or a promise that fulfils
    with the original value (a plain return value counting as a fulfilled
    promise), stays pending, or rejects with the original reason -- with the
    one exception of a rejection with [null], which comes back as a rejection
    with the handler's [TypeError]. *)
Theorem patched_result :
  (forall (original : Original ProducerRecord) record w,
     (_getProducerSendPatch propagator this original record w).1 =
     caller_sees (original record)) /\
  (forall (original : Original ProducerBatch) batch w,
     (_getProducerSendBatchPatch propagator this original batch w).1 =
     caller_sees (original batch)) /\
  (forall (original : Original EachMessagePayload) payload w,
     (_getConsumerEachMessagePatch Buffer_toString propagator this
        original payload w).1 = caller_sees (original payload)) /\
  (forall (original : Original EachBatchPayload) payload w,
     (_getConsumerEachBatchPatch Buffer_toString propagator this
        original payload w).1 = caller_sees (original payload)).
Proof.
  repeat split; intros original args w.
  - rewrite send_spec. apply finalizer_result_caller_sees.
  - rewrite sendBatch_spec. apply finalizer_result_caller_sees.
  - rewrite eachMessage_spec. apply finalizer_result_caller_sees.
  - rewrite eachBatch_spec. apply finalizer_result_caller_sees.
Qed.
End Outcomes.

Section Marks.
Variable Buffer_toString : list Byte.byte -> string.
Variable propagator : TextMapPropagator.
Variable this : KafkaJsInstrumentation.

Lemma finalizer_calls_rejected (x : Returned) (reason : JsValue) :
  reason <> JsNull ->
  Promise_resolve x = Rejected reason ->
  finalizer_calls (Normal x) =
  [CallSetStatus ERROR (rejection_message reason); CallEnd].
Proof.
  intros Hnull Hx. simpl. rewrite Hx. by rewrite errorMessage_of_not_null.
Qed.

Lemma finalizer_calls_fulfilled (x : Returned) (v : JsValue) :
  Promise_resolve x = Fulfilled v -> finalizer_calls (Normal x) = [CallEnd].
Proof. intros Hx. simpl. by rewrite Hx. Qed.

(** X2: when the promise of the original rejects with a reason other than
    [null], every span started for the operation -- the spans of all
    messages of a [send] or [sendBatch], the process span of [eachMessage],
    the receive span and all process spans of [eachBatch] -- receives
    [setStatus] with code ERROR and then [end()], and nothing else after its
    creation.  The message is the reason itself when it is a string, the
    reason's own [message] property when it is an object that has one, and
    [undefined] otherwise. *)
Theorem rejection_marks_every_span (reason : JsValue) :
  reason <> JsNull ->
  let marks := [CallSetStatus ERROR (rejection_message reason); CallEnd] in
  (forall (original : Original ProducerRecord) record w x,
     original record = Normal x -> Promise_resolve x = Rejected reason ->
     let r := _getProducerSendPatch propagator this original record w in
     Forall (span_received r.2 marks) (new_spans w r.2)) /\
  (forall (original : Original ProducerBatch) batch w x,
     original batch = Normal x -> Promise_resolve x = Rejected reason ->
     let r := _getProducerSendBatchPatch propagator this original batch w in
     Forall (span_received r.2 marks) (new_spans w r.2)) /\
  (forall (original : Original EachMessagePayload) payload w x,
     original payload = Normal x -> Promise_resolve x = Rejected reason ->
     let r := _getConsumerEachMessagePatch Buffer_toString propagator this
                original payload w in
     Forall (span_received r.2 marks) (new_spans w r.2)) /\
  (forall (original : Original EachBatchPayload) payload w x,
     original payload = Normal x -> Promise_resolve x = Rejected reason ->
     let r := _getConsumerEachBatchPatch Buffer_toString propagator this
                original payload w in
     Forall (span_received r.2 marks) (new_spans w r.2)).
Proof.
  intros Hnull marks.
  destruct (patched_spans_received Buffer_toString propagator this)
    as (Hsend & Hbatch & Hmsg & Heach).
  repeat split; intros original args w x Ho Hx r; unfold marks;
    rewrite <- (finalizer_calls_rejected x reason Hnull Hx), <- Ho.
  - apply Hsend.
  - apply Hbatch.
  - apply Hmsg.
  - apply Heach.
Qed.

(** X3: when the original returns a promise that fulfils, or returns a
    plain value instead of a promise, every span started for the operation
    receives [end()] and nothing else after its creation: on success no
    status is ever set. *)
Theorem fulfilment_only_ends_spans :
  (forall (original : Original ProducerRecord) record w x v,
     original record = Normal x -> Promise_resolve x = Fulfilled v ->
     let r := _getProducerSendPatch propagator this original record w in
     Forall (span_received r.2 [CallEnd]) (new_spans w r.2)) /\
  (forall (original : Original ProducerBatch) batch w x v,
     original batch = Normal x -> Promise_resolve x = Fulfilled v ->
     let r := _getProducerSendBatchPatch propagator this original batch w in
     Forall (span_received r.2 [CallEnd]) (new_spans w r.2)) /\
  (forall (original : Original EachMessagePayload) payload w x v,
     original payload = Normal x -> Promise_resolve x = Fulfilled v ->
     let r := _getConsumerEachMessagePatch Buffer_toString propagator this
                original payload w in
     Forall (span_received r.2 [CallEnd]) (new_spans w r.2)) /\
  (forall (original : Original EachBatchPayload) payload w x v,
     original payload = Normal x -> Promise_resolve x = Fulfilled v ->
     let r := _getConsumerEachBatchPatch Buffer_toString propagator this
                original payload w in
     Forall (span_received r.2 [CallEnd]) (new_spans w r.2)).
Proof.
  destruct (patched_spans_received Buffer_toString propagator this)
    as (Hsend & Hbatch & Hmsg & Heach).
  repeat split; intros original args w x v Ho Hx r;
    rewrite <- (finalizer_calls_fulfilled x v Hx), <- Ho.
  - apply Hsend.
  - apply Hbatch.
  - apply Hmsg.
  - apply Heach.
Qed.
End Marks.

(** A batch of three messages whose handler rejects with an [Error]
    carrying the message "boom": the receive span and the three process
    spans are all marked with it and ended. *)
Lemma rejection_marks_every_span_witness :
  let reason := JsObject 7 [("message", JsString "boom")] in
  let original : Original EachBatchPayload :=
    fun _ => Normal (ReturnsPromise (Rejected reason)) in
  let r := _getConsumerEachBatchPatch sample_toString sample_propagator
             plain_instrumentation original sample_batch_of_three sample_world in
  Forall (span_received r.2 [CallSetStatus ERROR (JsString "boom"); CallEnd])
    (new_spans sample_world r.2).
Proof.
  intros reason original.
  apply (proj2 (proj2 (proj2
           (rejection_marks_every_span sample_toString sample_propagator
              plain_instrumentation reason ltac:(discriminate))))
           original sample_batch_of_three sample_world
           (ReturnsPromise (Rejected reason)));
    reflexivity.
Defined.

(** ** Producing: spans, contexts and headers *)

Lemma set_fields_other (fields : list (string * string)) (c : Headers) (k : string) :
  k ∉ fields.*1 -> set_fields fields c !! k = c !! k.
Proof.
  revert c. induction fields as [|[k0 v0] fields IH]; intros c Hk; [done|].
  simpl in Hk. apply not_elem_of_cons in Hk as [Hne Hk].
  unfold set_fields in *. simpl. rewrite IH by done.
  by apply lookup_insert_ne.
Qed.

Lemma set_fields_written (fields : list (string * string)) (c : Headers)
    (k v : string) :
  NoDup fields.*1 -> (k, v) ∈ fields ->
  set_fields fields c !! k = Some (HvString v).
Proof.
  revert c. induction fields as [|[k0 v0] fields IH]; intros c Hdup Hin.
  - by apply elem_of_nil in Hin.
  - simpl in Hdup. apply NoDup_cons in Hdup as [Hk0 Hdup].
    apply elem_of_cons in Hin as [[= -> ->]|Hin].
    + change (set_fields ((k0, v0) :: fields) c)
        with (set_fields fields (<[k0 := HvString v0]> c)).
      rewrite set_fields_other by done. apply lookup_insert_eq.
    + change (set_fields ((k0, v0) :: fields) c)
        with (set_fields fields (<[k0 := HvString v0]> c)).
      by apply IH.
Qed.

Section Producing.
Variable Buffer_toString : list Byte.byte -> string.
Variable propagator : TextMapPropagator.
Variable this : KafkaJsInstrumentation.

(** X4: [send] starts exactly one PRODUCER span per message of the record,
    in message order: the i-th span started is the span of the i-th
    message.  It is named after the record's topic, has no links, is a
    child of whatever span is active in the caller, the producer hook has
    been run on it with that very message, and, for messages that share
    nothing, it is the context of that span that the message carries in its
    headers.  [send] invokes the original [send] exactly once, under the
    caller's context, with the record it was given, and leaves the key and
    value of every message as they were. *)
Theorem send_spans_in_order (original : Original ProducerRecord)
    (record : ProducerRecord) (w : World) :
  let r := _getProducerSendPatch propagator this original record w in
  let pairs := map (pair (prTopic record)) (prMessages record) in
  exists news : list SpanData,
    wSpans r.2 = wSpans w ++ news /\
    length news = length (prMessages record) /\
    (forall i m, prMessages record !! i = Some m ->
       exists sp, news !! i = Some sp /\
                  span_of_message this (prTopic record, m) (length (wSpans w) + i)
                    (finalizer_calls (original record)) sp /\
                  spParent sp = ctxSpan (wActive w)) /\
    (separate_messages w pairs -> own_context_carried propagator pairs w r.2) /\
    wCalls r.2 =
      wCalls w ++ [{| ocArgs := ArgsSend record; ocActive := wActive w |}] /\
    (forall m, msgKey (wMessages r.2 !!! m) = msgKey (wMessages w !!! m) /\
               msgValue (wMessages r.2 !!! m) = msgValue (wMessages w !!! m)).
Proof.
  intros r pairs. unfold r. rewrite send_spec. simpl.
  eexists. split; [reflexivity|]. split; [|split; [|split; [|split]]].
  - unfold record_pairs. by rewrite length_map, length_spans_along, length_map.
  - intros i m Hi.
    apply (patched_spans_lookup propagator this). unfold record_pairs.
    change (map ?f ?l) with (f <$> l). by rewrite list_lookup_fmap, Hi.
  - apply produce_steps_own_context.
  - by rewrite produce_step_calls.
  - intros m. apply produce_step_payload.
Qed.

(** X5: the producer spans of a [sendBatch] are children of whatever span
    is active in the caller, and none of the four patched functions changes
    the ambient active context: it is, after the call, what it was before,
    also when the original throws synchronously. *)
Theorem context_left_as_found :
  (forall (original : Original ProducerBatch) batch w,
     let r := _getProducerSendBatchPatch propagator this original batch w in
     wActive r.2 = wActive w /\
     forall span sp, span ∈ new_spans w r.2 -> wSpans r.2 !! span = Some sp ->
                     spParent sp = ctxSpan (wActive w)) /\
  (forall (original : Original ProducerRecord) record w,
     wActive (_getProducerSendPatch propagator this original record w).2 =
     wActive w) /\
  (forall (original : Original EachMessagePayload) payload w,
     wActive (_getConsumerEachMessagePatch Buffer_toString propagator this
                original payload w).2 = wActive w) /\
  (forall (original : Original EachBatchPayload) payload w,
     wActive (_getConsumerEachBatchPatch Buffer_toString propagator this
                original payload w).2 = wActive w).
Proof.
  split; [|split; [|split]].
  - intros original batch w r. unfold r. rewrite sendBatch_spec. simpl.
    split; [apply produce_step_active|].
    intros span sp Hspan Hsp.
    erewrite new_spans_count in Hspan; [|reflexivity].
    apply elem_of_seq in Hspan. rewrite length_map in Hspan.
    rewrite lookup_app_r in Hsp by lia.
    change (map ?f ?l) with (f <$> l) in Hsp.
    rewrite list_lookup_fmap in Hsp.
    destruct (_ !! (span - length (wSpans w))) as [sp0|] eqn:Hsp0;
      [|discriminate].
    injection Hsp as <-. simpl.
    assert (Hall : forall pairs w',
              wActive w' = wActive w ->
              Forall (fun sp => spParent sp = ctxSpan (wActive w))
                (spans_along (produce_span this) (produce_step propagator this)
                   pairs w')).
    { induction pairs as [|p pairs IH]; intros w' Hw'; simpl; constructor.
      - unfold produce_span, producer_span. simpl. by rewrite Hw'.
      - by apply IH. }
    by apply (Forall_lookup_1 _ _ _ _ (Hall _ w eq_refl) Hsp0).
  - intros original record w. rewrite send_spec. simpl.
    apply produce_step_active.
  - intros original payload w. by rewrite eachMessage_spec.
  - intros original payload w. by rewrite eachBatch_spec.
Qed.

(** X6: creating the producer span of a message that already has headers
    keeps every header the propagator does not write, touches no other
    header object and no other message, and leaves the message's key and
    value alone. *)
Theorem producer_span_keeps_user_headers (topic : string) (message h : nat)
    (w : World) :
  msgHeaders (wMessages w !!! message) = Some h ->
  let r := _startProducerSpan propagator this topic message w in
  let span := length (wSpans w) in
  let fields := inject_fields propagator (trace_setSpan (wActive w) span) in
  r.1 = Normal span /\
  msgHeaders (wMessages r.2 !!! message) = Some h /\
  (forall k, k ∉ fields.*1 ->
             (wHeaders r.2 !!! h) !! k = (wHeaders w !!! h) !! k) /\
  (forall h', h' <> h -> wHeaders r.2 !! h' = wHeaders w !! h') /\
  (forall m, m <> message -> wMessages r.2 !! m = wMessages w !! m) /\
  msgKey (wMessages r.2 !!! message) = msgKey (wMessages w !!! message) /\
  msgValue (wMessages r.2 !!! message) = msgValue (wMessages w !!! message).
Proof.
  intros Hh r span fields. unfold fields, span, r.
  rewrite startProducerSpan_spec. simpl.
  unfold headers_ref, headers_before. rewrite Hh.
  rewrite !lookup_total_insert_eq. simpl.
  split; [done|]. split; [done|]. split; [|split; [|split]].
  - intros k Hk. by apply set_fields_other.
  - intros h' Hne. by apply lookup_insert_ne.
  - intros m Hne. by apply lookup_insert_ne.
  - done.
Qed.

(** X7: what the propagator injects can be read back through the carrier
    adapter.  When the propagator writes each of its keys once, then after
    the producer span of a message has been created, [get] on the message's
    header object gives, for every written key, the written value. *)
Theorem injected_fields_read_back (topic : string) (message : nat) (w : World)
    (k v : string) :
  let r := _startProducerSpan propagator this topic message w in
  let span := length (wSpans w) in
  let fields := inject_fields propagator (trace_setSpan (wActive w) span) in
  NoDup fields.*1 ->
  (k, v) ∈ fields ->
  r.1 = Normal span /\
  exists h,
    msgHeaders (wMessages r.2 !!! message) = Some h /\
    bufferTextMapGetter_get Buffer_toString (Some (wHeaders r.2 !!! h)) k = Some v.
Proof.
  intros r span fields. unfold fields, span, r.
  rewrite startProducerSpan_spec. simpl.
  intros Hdup Hin. split; [done|]. exists (headers_ref w message).
  rewrite !lookup_total_insert_eq. split; [done|].
  by rewrite (set_fields_written _ _ k v Hdup Hin).
Qed.
End Producing.

(** A [send] of two messages: span 1 is the span of message 1 -- the hook
    has marked it with message 1 -- and message 1 carries the context of
    span 1. *)
Lemma send_spans_in_order_witness :
  let r := _getProducerSendPatch numbering_propagator marking_instrumentation
             (fun _ => Normal (ReturnsPromise (Fulfilled JsUndefined)))
             sample_record_of_two sample_outbox in
  exists news,
    wSpans r.2 = news /\
    length news = 2 /\
    (exists sp, news !! 1 = Some sp /\ spName sp = "orders" /\
                spParent sp = None /\
                spCalls sp = [CallSetAttribute "message" (JsNumber 1); CallEnd]) /\
    (exists h c, msgHeaders (wMessages r.2 !!! 1) = Some h /\
                 wHeaders r.2 !! h = Some c /\
                 c !! "traceparent" = Some (HvString "span-1")).
Proof.
  destruct (send_spans_in_order numbering_propagator marking_instrumentation
              (fun _ => Normal (ReturnsPromise (Fulfilled JsUndefined)))
              sample_record_of_two sample_outbox)
    as (news & Hspans & Hlen & Hnews & Hown & _).
  exists news. split; [exact Hspans|]. split; [exact Hlen|]. split.
  - destruct (Hnews 1 1 eq_refl)
      as (sp & Hsp & (Hname & _ & _ & _ & Hcalls) & Hparent).
    exists sp. split; [exact Hsp|]. split; [exact Hname|]. split; [exact Hparent|].
    rewrite Hcalls. reflexivity.
  - destruct (Hown (sample_outbox_separate_two [("orders", 0); ("orders", 1)]
                      eq_refl) 1 ("orders", 1) eq_refl)
      as (h & c & Hm & Hh & Hw).
    exists h, c. split; [exact Hm|]. split; [exact Hh|].
    rewrite (Hw "traceparent"). reflexivity.
Defined.

(** A message that carries a header of the application's own keeps it. *)
Lemma producer_span_keeps_user_headers_witness :
  let r := _startProducerSpan sample_propagator plain_instrumentation "orders" 0
             sample_world_with_headers in
  (wHeaders r.2 !!! 0) !! "app" = (wHeaders sample_world_with_headers !!! 0) !! "app".
Proof.
  apply (proj1 (proj2 (proj2
           (producer_span_keeps_user_headers sample_propagator
              plain_instrumentation "orders" 0 0 sample_world_with_headers
              eq_refl))) "app").
  simpl. apply not_elem_of_cons. split; [done|apply not_elem_of_nil].
Defined.

(** The sample propagator's one field is read back from the message. *)
Lemma injected_fields_read_back_witness :
  let r := _startProducerSpan sample_propagator plain_instrumentation "orders" 0
             sample_world in
  exists h,
    msgHeaders (wMessages r.2 !!! 0) = Some h /\
    bufferTextMapGetter_get sample_toString (Some (wHeaders r.2 !!! h))
      "traceparent" = Some "local".
Proof.
  apply (fun Hdup Hin =>
           proj2 (injected_fields_read_back sample_toString sample_propagator
                    plain_instrumentation "orders" 0 sample_world
                    "traceparent" "local" Hdup Hin)).
  - simpl. apply NoDup_singleton.
  - simpl. apply list_elem_of_singleton. reflexivity.
Defined.

(** ** The diagnostic channel *)

Lemma run_steps_diag {A} (P : string * JsValue -> Prop)
    (step : A -> World -> World) (l : list A) (w : World) :
  (forall x w, exists a, wDiag (step x w) = wDiag w ++ a /\
                         length a <= 1 /\ Forall P a) ->
  exists added, wDiag (run_steps step l w) = wDiag w ++ added /\
                length added <= length l /\ Forall P added.
Proof.
  intros Hstep. revert w. induction l as [|x l IH]; intros w.
  - exists []. simpl. by rewrite app_nil_r.
  - destruct (Hstep x w) as (a & Ha & Hlen & HP).
    destruct (IH (step x w)) as (added & Hadded & Hlen' & HP').
    exists (a ++ added). unfold run_steps in *. simpl.
    rewrite Hadded, Ha, <- app_assoc. split; [done|].
    split; [rewrite length_app; lia|]. by apply Forall_app.
Qed.

Lemma hook_diag_shape (message : string) (r : option HookRun) :
  length (hook_diag message r) <= 1 /\
  Forall (fun entry => fst entry = message /\ truthy (snd entry) = true /\
                       is_Some r)
    (hook_diag message r).
Proof.
  destruct r as [r|]; simpl; [|split; [lia|constructor]].
  destruct (hrThrows r) as [e|]; [|split; [simpl; lia|constructor]].
  destruct (truthy e) eqn:He; [|split; [simpl; lia|constructor]].
  split; [simpl; lia|]. repeat constructor; by eauto.
Qed.

Section Diagnostics.
Variable Buffer_toString : list Byte.byte -> string.
Variable propagator : TextMapPropagator.
Variable this : KafkaJsInstrumentation.

Lemma produce_steps_diag (pairs : list (string * nat)) (w : World) :
  exists added,
    wDiag (run_steps (produce_step propagator this) pairs w) = wDiag w ++ added /\
    length added <= length pairs /\
    Forall (fun entry => fst entry = producerHook_error /\
                         truthy (snd entry) = true /\
                         is_Some (producerHook (_config this))) added.
Proof.
  apply run_steps_diag. intros [topic message] w'. eexists.
  split; [reflexivity|].
  destruct (hook_diag_shape producerHook_error
              (producer_hook_run this (length (wSpans w')) topic message))
    as [Hlen HP].
  split; [exact Hlen|].
  eapply Forall_impl; [exact HP|]. intros entry (? & ? & Hrun).
  split; [done|]. split; [done|].
  unfold producer_hook_run in Hrun.
  destruct (producerHook (_config this)); [by eauto|by destruct Hrun].
Qed.

Lemma consumer_world_diag (topic : string) (message : option KafkaMessage)
    (operation : string) (context : option Context) (link : option SpanContext)
    (w : World) :
  exists a,
    wDiag (consumer_world this topic message operation context link w) =
      wDiag w ++ a /\
    length a <= match message with Some _ => 1 | None => 0 end /\
    Forall (fun entry => fst entry = consumerHook_error /\
                         truthy (snd entry) = true /\
                         is_Some (consumerHook (_config this))) a.
Proof.
  eexists. split; [reflexivity|].
  destruct (hook_diag_shape consumerHook_error
              (consumer_hook_run this (length (wSpans w)) topic message))
    as [Hlen HP].
  split.
  - destruct message; [exact Hlen|].
    unfold consumer_hook_run. by destruct (consumerHook (_config this)).
  - eapply Forall_impl; [exact HP|]. intros entry (? & ? & Hrun).
    split; [done|]. split; [done|].
    unfold consumer_hook_run in Hrun.
    destruct (consumerHook (_config this)); [by eauto|by destruct Hrun].
Qed.

(** X8: the only thing the patched functions ever write to the diagnostic
    channel is the error of a configured hook that threw a truthy value:
    what was logged before stays, and what is added are entries with the
    hook-error message of the producer (for [send] and [sendBatch]) or of
    the consumer (for [eachMessage] and [eachBatch]), at most one per
    message -- for a batch of N messages at most N, the receive span adding
    none.  Nothing about the traced operation itself, neither its rejection
    nor its throw, is logged. *)
Theorem only_hook_errors_are_logged :
  (forall (original : Original ProducerRecord) record w,
     let r := _getProducerSendPatch propagator this original record w in
     exists added,
       wDiag r.2 = wDiag w ++ added /\
       length added <= length (prMessages record) /\
       Forall (fun entry => fst entry = producerHook_error /\
                            truthy (snd entry) = true /\
                            is_Some (producerHook (_config this))) added) /\
  (forall (original : Original ProducerBatch) batch w,
     let r := _getProducerSendBatchPatch propagator this original batch w in
     exists added,
       wDiag r.2 = wDiag w ++ added /\
       length added <= length (flat_pairs (default [] (pbTopicMessages batch))) /\
       Forall (fun entry => fst entry = producerHook_error /\
                            truthy (snd entry) = true /\
                            is_Some (producerHook (_config this))) added) /\
  (forall (original : Original EachMessagePayload) payload w,
     let r := _getConsumerEachMessagePatch Buffer_toString propagator this
                original payload w in
     exists added,
       wDiag r.2 = wDiag w ++ added /\
       length added <= 1 /\
       Forall (fun entry => fst entry = consumerHook_error /\
                            truthy (snd entry) = true /\
                            is_Some (consumerHook (_config this))) added) /\
  (forall (original : Original EachBatchPayload) payload w,
     let r := _getConsumerEachBatchPatch Buffer_toString propagator this
                original payload w in
     exists added,
       wDiag r.2 = wDiag w ++ added /\
       length added <= length (bMessages (ebpBatch payload)) /\
       Forall (fun entry => fst entry = consumerHook_error /\
                            truthy (snd entry) = true /\
                            is_Some (consumerHook (_config this))) added).
Proof.
  split; [|split; [|split]].
  - intros original record w r. unfold r. rewrite send_spec. simpl.
    destruct (produce_steps_diag (record_pairs record) w) as (added & ? & Hlen & ?).
    exists added. unfold record_pairs in Hlen. rewrite length_map in Hlen. done.
  - intros original batch w r. unfold r. rewrite sendBatch_spec. simpl.
    apply produce_steps_diag.
  - intros original payload w r. unfold r. rewrite eachMessage_spec.
    destruct (consumer_world_diag (empTopic payload) (Some (empMessage payload))
                MessagingOperationValues.PROCESS
                (Some (propagation_extract Buffer_toString propagator ROOT_CONTEXT
                         (kmHeaders (empMessage payload))))
                None w) as (a & Ha & Hlen & HP).
    exists a. split; [exact Ha|]. by split.
  - intros original payload w r. unfold r. rewrite eachBatch_spec. simpl.
    set (w1 := set_wActive _ _).
    destruct (run_steps_diag
                (fun entry => fst entry = consumerHook_error /\
                              truthy (snd entry) = true /\
                              is_Some (consumerHook (_config this)))
                (process_step Buffer_toString propagator this
                   (bTopic (ebpBatch payload)))
                (bMessages (ebpBatch payload)) w1) as (added & Ha & Hlen & HP).
    { intros m w'.
      apply (consumer_world_diag (bTopic (ebpBatch payload)) (Some m)). }
    exists added. split; [|done]. rewrite Ha. unfold w1. simpl.
    unfold consumer_hook_run.
    destruct (consumerHook (_config this)); simpl; by rewrite app_nil_r.
Qed.
End Diagnostics.

(** ** Patching *)

Lemma get_slot_set_slot_eq (h : Host) (a : nat) (name : string) (f g : Fn) :
  get_slot h a name = Some g -> get_slot (set_slot a name f h) a name = Some f.
Proof.
  unfold get_slot, set_slot. simpl. rewrite lookup_alter_eq.
  destruct (hObjects h !! a) as [obj|]; [|done]. simpl. intros _.
  apply lookup_insert_eq.
Qed.

Lemma get_slot_set_slot_ne (h : Host) (a a' : nat) (name name' : string) (f : Fn) :
  (a', name') <> (a, name) ->
  get_slot (set_slot a name f h) a' name' = get_slot h a' name'.
Proof.
  intros Hne. unfold get_slot, set_slot. simpl.
  destruct (decide (a = a')) as [<-|Ha].
  - rewrite lookup_alter_eq. destruct (hObjects h !! a) as [obj|]; [|done]. simpl.
    apply lookup_insert_ne. congruence.
  - by rewrite lookup_alter_ne.
Qed.

Arguments get_slot : simpl never.
Arguments set_slot : simpl never.

Lemma shimmer_wrap_spec (h : Host) (a : nat) (name : string) (p : Patch) (f : Fn) :
  get_slot h a name = Some f ->
  let h' := shimmer_wrap (Some a) name p h in
  get_slot h' a name = Some (Wrapped (hNextId h) p a name f) /\
  (forall a' name', (a', name') <> (a, name) ->
                    get_slot h' a' name' = get_slot h a' name') /\
  hNextId h' = S (hNextId h).
Proof.
  intros Hf. simpl. rewrite Hf. split; [|split].
  - by apply (get_slot_set_slot_eq _ _ _ _ f).
  - intros a' name' Hne. by rewrite get_slot_set_slot_ne.
  - done.
Qed.

Lemma shimmer_wrap_absent (h : Host) (a : nat) (name : string) (p : Patch) :
  get_slot h a name = None -> shimmer_wrap (Some a) name p h = h.
Proof. intros Hf. simpl. by rewrite Hf. Qed.

(** Unwrapping a wrapper that sits where it was installed. *)
Lemma shimmer_unwrap_here (h : Host) (a : nat) (name : string)
    (id : nat) (p : Patch) (original : Fn) :
  get_slot h a name = Some (Wrapped id p a name original) ->
  let h' := shimmer_unwrap (Some a) name h in
  get_slot h' a name = Some original /\
  (forall a' name', (a', name') <> (a, name) ->
                    get_slot h' a' name' = get_slot h a' name') /\
  hNextId h' = hNextId h.
Proof.
  intros Hf. simpl. rewrite Hf. simpl. rewrite Hf. simpl. rewrite Nat.eqb_refl.
  split; [|split].
  - by apply (get_slot_set_slot_eq _ _ _ _ (Wrapped id p a name original)).
  - intros a' name' Hne. by rewrite get_slot_set_slot_ne.
  - done.
Qed.

(** Unwrapping a wrapper that was installed elsewhere leaves the slot it
    was found in as it is. *)
Lemma shimmer_unwrap_elsewhere (h : Host) (a : nat) (name : string)
    (id : nat) (p : Patch) (home : nat) (slot : string) (original : Fn) :
  get_slot h a name = Some (Wrapped id p home slot original) ->
  (home, slot) <> (a, name) ->
  let h' := shimmer_unwrap (Some a) name h in
  get_slot h' a name = get_slot h a name /\
  (forall a' name', (a', name') <> (home, slot) ->
                    get_slot h' a' name' = get_slot h a' name') /\
  hNextId h' = hNextId h.
Proof.
  intros Hf Hne. simpl. rewrite Hf.
  destruct (get_slot h home slot) as [g|]; [|done].
  destruct (Nat.eqb (fn_id g) id); [|done].
  split; [|split].
  - rewrite get_slot_set_slot_ne; [done|congruence].
  - intros a' name' Hne'. by apply get_slot_set_slot_ne.
  - done.
Qed.

(** Unwrap-if-wrapped, then wrap: whatever sat in the slot, a wrapper
    installed there or a plain function, the slot then holds one wrapper
    around the plain function, and no other slot has changed. *)
Lemma rewrap_spec (h : Host) (a : nat) (name : string) (p : Patch) (f : Fn) :
  get_slot h a name = Some f ->
  installed_here h a name ->
  let h' := rewrap a name p h in
  get_slot h' a name = Some (Wrapped (hNextId h) p a name (unwrapped f)) /\
  (forall a' name', (a', name') <> (a, name) ->
                    get_slot h' a' name' = get_slot h a' name') /\
  hNextId h' = S (hNextId h).
Proof.
  intros Hf Hhere. unfold installed_here in Hhere. rewrite Hf in Hhere.
  unfold rewrap. rewrite Hf.
  destruct f as [id|id p0 home slot original]; cbn [isWrapped unwrapped].
  - apply shimmer_wrap_spec. exact Hf.
  - destruct Hhere as [-> ->].
    destruct (shimmer_unwrap_here h a name id p0 original Hf) as (Hs & Ho & Hn).
    destruct (shimmer_wrap_spec _ a name p original Hs) as (Hs' & Ho' & Hn').
    cbv zeta. rewrite Hs', Hn', Hn. split; [done|]. split; [|done].
    intros a' name' Hne. rewrite Ho' by done. by apply Ho.
Qed.

Lemma rewrap_absent (h : Host) (a : nat) (name : string) (p : Patch) :
  get_slot h a name = None -> rewrap a name p h = h.
Proof.
  intros Hf. unfold rewrap. rewrite Hf. simpl. by apply shimmer_wrap_absent.
Qed.

Lemma rewrap_installed_here (h : Host) (a : nat) (name : string) (p : Patch) :
  installed_here h a name -> installed_here (rewrap a name p h) a name.
Proof.
  intros Hhere. destruct (get_slot h a name) as [f|] eqn:Hf.
  - destruct (rewrap_spec h a name p f Hf Hhere) as (Hs & _).
    unfold installed_here. by rewrite Hs.
  - by rewrite rewrap_absent.
Qed.

Lemma rewrap_rewrapped (h : Host) (a : nat) (name : string) (p : Patch) :
  installed_here h a name ->
  let h' := rewrap a name p h in
  rewrapped h h' a name p /\
  (forall a' name', (a', name') <> (a, name) ->
                    get_slot h' a' name' = get_slot h a' name') /\
  installed_here h' a name.
Proof.
  intros Hhere h'. unfold h', rewrapped.
  destruct (get_slot h a name) as [f|] eqn:Hf.
  - destruct (rewrap_spec h a name p f Hf Hhere) as (Hs & Ho & _).
    split; [by eexists|]. split; [exact Ho|].
    unfold installed_here. by rewrite Hs.
  - rewrite rewrap_absent by done. split; [done|]. split; [done|].
    unfold installed_here. by rewrite Hf.
Qed.

(** Wrapping again what was wrapped: the wrapper of the first pass is
    removed and a new one put around the same function. *)
Lemma rewrapped_twice (h h1 h2 : Host) (a : nat) (name : string) (p : Patch) :
  rewrapped h h1 a name p -> rewrapped h1 h2 a name p -> rewrapped h h2 a name p.
Proof.
  unfold rewrapped. destruct (get_slot h a name) as [f|].
  - intros [id Hs]. by rewrite Hs.
  - intros Hs. by rewrite Hs.
Qed.

Lemma wrap_handlers_step (c : nat) (h : Host) :
  installed_here h c "eachMessage" ->
  installed_here h c "eachBatch" ->
  let h' := wrap_handlers (Some c) h in
  rewrapped h h' c "eachMessage" ConsumerEachMessagePatch /\
  rewrapped h h' c "eachBatch" ConsumerEachBatchPatch /\
  (forall a name, (a, name) <> (c, "eachMessage") -> (a, name) <> (c, "eachBatch") ->
                  get_slot h' a name = get_slot h a name) /\
  installed_here h' c "eachMessage" /\
  installed_here h' c "eachBatch".
Proof.
  intros Hm Hb h'. unfold h', wrap_handlers.
  destruct (rewrap_rewrapped h c "eachMessage" ConsumerEachMessagePatch Hm)
    as (Hm1 & Ho1 & Hh1).
  set (h1 := match get_slot h c "eachMessage" with
             | Some _ => rewrap c "eachMessage" ConsumerEachMessagePatch h
             | None => h
             end).
  assert (Heq : h1 = rewrap c "eachMessage" ConsumerEachMessagePatch h).
  { unfold h1. destruct (get_slot h c "eachMessage") eqn:Hs; [done|].
    by rewrite rewrap_absent. }
  rewrite Heq. clear h1 Heq.
  set (h1 := rewrap c "eachMessage" ConsumerEachMessagePatch h) in *.
  assert (Hb1 : installed_here h1 c "eachBatch").
  { unfold installed_here. rewrite Ho1 by congruence. exact Hb. }
  destruct (rewrap_rewrapped h1 c "eachBatch" ConsumerEachBatchPatch Hb1)
    as (Hb2 & Ho2 & Hh2).
  set (h2 := match get_slot h1 c "eachBatch" with
             | Some _ => rewrap c "eachBatch" ConsumerEachBatchPatch h1
             | None => h1
             end).
  assert (Heq : h2 = rewrap c "eachBatch" ConsumerEachBatchPatch h1).
  { unfold h2. destruct (get_slot h1 c "eachBatch") eqn:Hs; [done|].
    by rewrite rewrap_absent. }
  rewrite Heq. clear h2 Heq.
  set (h2 := rewrap c "eachBatch" ConsumerEachBatchPatch h1) in *.
  split; [|split; [|split; [|split]]].
  - unfold rewrapped, patched_once in *. rewrite Ho2 by congruence. exact Hm1.
  - unfold rewrapped in *. rewrite <- (Ho1 c "eachBatch") by congruence. exact Hb2.
  - intros a name Hne1 Hne2. rewrite Ho2 by done. by apply Ho1.
  - unfold installed_here in *. rewrite Ho2 by congruence. exact Hh1.
  - exact Hh2.
Qed.

(** X9: the patched [run] wraps, in place, the handlers of the config
    object it is given: [eachMessage] and [eachBatch], when present, each
    end up as one wrapper of the instrumentation around the application's
    handler, an absent handler stays absent, and nothing else in the config
    or anywhere else is touched; with no config at all nothing is wrapped.
    Calling [run] again with the same config object does not add a layer:
    the wrapper of the first call is taken off before the new one is put
    on.  (The premise is that a wrapper found in the config was installed
    in that very config, as it is when it comes from an earlier [run].) *)
Theorem run_wraps_handlers_once (c : nat) (h : Host) :
  installed_here h c "eachMessage" ->
  installed_here h c "eachBatch" ->
  let once := wrap_handlers (Some c) h in
  let twice := wrap_handlers (Some c) once in
  rewrapped h once c "eachMessage" ConsumerEachMessagePatch /\
  rewrapped h once c "eachBatch" ConsumerEachBatchPatch /\
  rewrapped h twice c "eachMessage" ConsumerEachMessagePatch /\
  rewrapped h twice c "eachBatch" ConsumerEachBatchPatch /\
  (forall a name, (a, name) <> (c, "eachMessage") -> (a, name) <> (c, "eachBatch") ->
                  get_slot once a name = get_slot h a name /\
                  get_slot twice a name = get_slot h a name) /\
  wrap_handlers None h = h.
Proof.
  intros Hm Hb once twice.
  destruct (wrap_handlers_step c h Hm Hb) as (Hm1 & Hb1 & Ho1 & Hhm & Hhb).
  destruct (wrap_handlers_step c once Hhm Hhb) as (Hm2 & Hb2 & Ho2 & _ & _).
  split; [exact Hm1|]. split; [exact Hb1|].
  split; [by apply (rewrapped_twice h once)|].
  split; [by apply (rewrapped_twice h once)|].
  split; [|done].
  intros a name Hne1 Hne2. split; [by apply Ho1|].
  unfold twice. rewrite Ho2 by done. by apply Ho1.
Qed.

(** The premises of X9 hold of a config object with the application's two
    handlers. *)
Lemma run_wraps_handlers_once_witness :
  let once := wrap_handlers (Some 1) sample_host in
  let twice := wrap_handlers (Some 1) once in
  rewrapped sample_host once 1 "eachMessage" ConsumerEachMessagePatch /\
  rewrapped sample_host once 1 "eachBatch" ConsumerEachBatchPatch /\
  rewrapped sample_host twice 1 "eachMessage" ConsumerEachMessagePatch /\
  rewrapped sample_host twice 1 "eachBatch" ConsumerEachBatchPatch /\
  (forall a name, (a, name) <> (1, "eachMessage") -> (a, name) <> (1, "eachBatch") ->
                  get_slot once a name = get_slot sample_host a name /\
                  get_slot twice a name = get_slot sample_host a name) /\
  wrap_handlers None sample_host = sample_host.
Proof.
  apply (run_wraps_handlers_once 1 sample_host); exact I.
Defined.

(** X10: a handler function that had been wrapped in one config object and
    was then copied into another is not unwrapped by [run] on the second
    object -- the wrapper undoes itself only in the slot it was installed
    in -- so [run] puts a second wrapper around the first. *)
Theorem copied_handler_is_wrapped_twice (c : nat) (h : Host) (id : nat) (p : Patch)
    (home : nat) (slot : string) (original : Fn) :
  get_slot h c "eachMessage" = Some (Wrapped id p home slot original) ->
  home <> c ->
  installed_here h c "eachBatch" ->
  get_slot (wrap_handlers (Some c) h) c "eachMessage" =
  Some (Wrapped (hNextId h) ConsumerEachMessagePatch c "eachMessage"
          (Wrapped id p home slot original)).
Proof.
  intros Hf Hhome Hb. unfold wrap_handlers. rewrite Hf.
  assert (Hne : (home, slot) <> (c, "eachMessage")) by congruence.
  destruct (shimmer_unwrap_elsewhere h c "eachMessage" id p home slot original
              Hf Hne) as (Hs & Ho & Hn).
  set (h0 := shimmer_unwrap (Some c) "eachMessage" h) in *.
  rewrite Hf in Hs.
  destruct (shimmer_wrap_spec h0 c "eachMessage" ConsumerEachMessagePatch _ Hs)
    as (Hs1 & Ho1 & Hn1).
  assert (Hh1 : rewrap c "eachMessage" ConsumerEachMessagePatch h =
                shimmer_wrap (Some c) "eachMessage" ConsumerEachMessagePatch h0).
  { unfold rewrap. by rewrite Hf. }
  rewrite Hh1. set (h1 := shimmer_wrap _ _ _ h0) in *.
  assert (Hb1 : installed_here h1 c "eachBatch").
  { unfold installed_here. rewrite Ho1 by congruence.
    rewrite Ho by congruence. exact Hb. }
  destruct (rewrap_rewrapped h1 c "eachBatch" ConsumerEachBatchPatch Hb1)
    as (_ & Ho2 & _).
  rewrite <- Hn, <- Hs1.
  destruct (get_slot h1 c "eachBatch"); [|done].
  apply Ho2. congruence.
Qed.

Lemma copied_handler_is_wrapped_twice_witness :
  get_slot (wrap_handlers (Some 4) sample_host_with_copy) 4 "eachMessage" =
  Some (Wrapped 100 ConsumerEachMessagePatch 4 "eachMessage"
          (Wrapped 50 ConsumerEachMessagePatch 1 "eachMessage" (Native 10))).
Proof.
  apply (copied_handler_is_wrapped_twice 4 sample_host_with_copy 50
           ConsumerEachMessagePatch 1 "eachMessage" (Native 10)).
  - reflexivity.
  - discriminate.
  - exact I.
Defined.

(** X11: the patched [Kafka.prototype.producer] hands back the producer the
    original made, with its [send] and [sendBatch] each replaced by one
    wrapper of the instrumentation around the producer's own function --
    also when the original hands back a producer that was patched before
    -- and with nothing else changed. *)
Theorem producer_methods_wrapped_once (original : Host -> Completion nat * Host)
    (h h1 : Host) (newProducer : nat) :
  original h = (Normal newProducer, h1) ->
  installed_here h1 newProducer "sendBatch" ->
  installed_here h1 newProducer "send" ->
  let r := _getProducerPatch original h in
  r.1 = Normal newProducer /\
  rewrapped h1 r.2 newProducer "sendBatch" ProducerSendBatchPatch /\
  rewrapped h1 r.2 newProducer "send" ProducerSendPatch /\
  (forall a name, (a, name) <> (newProducer, "sendBatch") ->
                  (a, name) <> (newProducer, "send") ->
                  get_slot r.2 a name = get_slot h1 a name).
Proof.
  intros Ho Hb Hs r. unfold r, _getProducerPatch. rewrite Ho. simpl.
  destruct (rewrap_rewrapped h1 newProducer "sendBatch" ProducerSendBatchPatch Hb)
    as (Hb1 & Ho1 & _).
  set (h2 := rewrap newProducer "sendBatch" ProducerSendBatchPatch h1) in *.
  assert (Hs2 : installed_here h2 newProducer "send").
  { unfold installed_here. rewrite Ho1 by congruence. exact Hs. }
  destruct (rewrap_rewrapped h2 newProducer "send" ProducerSendPatch Hs2)
    as (Hs3 & Ho3 & _).
  split; [done|]. split; [|split].
  - unfold rewrapped, patched_once in *. rewrite Ho3 by congruence. exact Hb1.
  - unfold rewrapped in *. rewrite <- (Ho1 newProducer "send") by congruence.
    exact Hs3.
  - intros a name Hne1 Hne2. rewrite Ho3 by done. by apply Ho1.
Qed.

Lemma producer_methods_wrapped_once_witness :
  let original : Host -> Completion nat * Host := fun h => (Normal 3, h) in
  let r := _getProducerPatch original sample_host in
  r.1 = Normal 3 /\
  rewrapped sample_host r.2 3 "sendBatch" ProducerSendBatchPatch /\
  rewrapped sample_host r.2 3 "send" ProducerSendPatch /\
  (forall a name, (a, name) <> (3, "sendBatch") -> (a, name) <> (3, "send") ->
                  get_slot r.2 a name = get_slot sample_host a name).
Proof.
  apply (producer_methods_wrapped_once (fun h => (Normal 3, h))
           sample_host sample_host 3); [reflexivity|exact I|exact I].
Defined.

(** X12: the patched [Kafka.prototype.consumer] hands back the consumer the
    original made, with its [run] replaced by one wrapper of the
    instrumentation around the consumer's own [run], a wrapper from an
    earlier patching being taken off first, and with nothing else
    changed. *)
Theorem consumer_run_wrapped_once (original : Host -> Completion nat * Host)
    (h h1 : Host) (newConsumer : nat) :
  original h = (Normal newConsumer, h1) ->
  installed_here h1 newConsumer "run" ->
  let r := _getConsumerPatch original h in
  r.1 = Normal newConsumer /\
  rewrapped h1 r.2 newConsumer "run" ConsumerRunPatch /\
  (forall a name, (a, name) <> (newConsumer, "run") ->
                  get_slot r.2 a name = get_slot h1 a name).
Proof.
  intros Ho Hr r. unfold r, _getConsumerPatch. rewrite Ho. simpl.
  destruct (rewrap_rewrapped h1 newConsumer "run" ConsumerRunPatch Hr)
    as (Hr1 & Ho1 & _).
  by split.
Qed.

Lemma consumer_run_wrapped_once_witness :
  let original : Host -> Completion nat * Host := fun h => (Normal 3, h) in
  let r := _getConsumerPatch original sample_host in
  r.1 = Normal 3 /\
  rewrapped sample_host r.2 3 "run" ConsumerRunPatch /\
  (forall a name, (a, name) <> (3, "run") ->
                  get_slot r.2 a name = get_slot sample_host a name).
Proof.
  apply (consumer_run_wrapped_once (fun h => (Normal 3, h))
           sample_host sample_host 3); [reflexivity|exact I].
Defined.

Lemma unwrap_if_wrapped (h : Host) (a : nat) (name : string) :
  installed_here h a name ->
  let h' := if isWrapped (get_slot h a name)
            then shimmer_unwrap (Some a) name h else h in
  get_slot h' a name = unwrapped <$> get_slot h a name /\
  (forall a' name', (a', name') <> (a, name) ->
                    get_slot h' a' name' = get_slot h a' name') /\
  hNextId h' = hNextId h.
Proof.
  intros Hhere. unfold installed_here in Hhere.
  destruct (get_slot h a name) as [[id|id p home slot original]|] eqn:Hf;
    cbn [isWrapped]; cbv zeta; rewrite ?Hf; try done.
  destruct Hhere as [-> ->].
  destruct (shimmer_unwrap_here h a name id p original Hf) as (Hs & Ho & Hn).
  by rewrite Hs.
Qed.

Lemma unpatch_spec (a : nat) (h : Host) :
  installed_here h a "producer" ->
  installed_here h a "consumer" ->
  let h' := unpatch (Some a) h in
  get_slot h' a "producer" = unwrapped <$> get_slot h a "producer" /\
  get_slot h' a "consumer" = unwrapped <$> get_slot h a "consumer" /\
  (forall a' name, (a', name) <> (a, "producer") -> (a', name) <> (a, "consumer") ->
                   get_slot h' a' name = get_slot h a' name) /\
  hNextId h' = hNextId h.
Proof.
  intros Hp Hc. unfold unpatch.
  destruct (unwrap_if_wrapped h a "producer" Hp) as (Hp1 & Ho1 & Hn1).
  set (h1 := if isWrapped (get_slot h a "producer")
             then shimmer_unwrap (Some a) "producer" h else h) in *.
  assert (Hc1 : installed_here h1 a "consumer").
  { unfold installed_here. rewrite Ho1 by congruence. exact Hc. }
  destruct (unwrap_if_wrapped h1 a "consumer" Hc1) as (Hc2 & Ho2 & Hn2).
  cbv zeta. split; [|split; [|split]].
  - rewrite Ho2 by congruence. exact Hp1.
  - rewrite Hc2. by rewrite Ho1 by congruence.
  - intros a' name Hne1 Hne2. rewrite Ho2 by done. by apply Ho1.
  - by rewrite Hn2.
Qed.

(** After unwrapping, a slot holds no wrapper of this layer any more, or is
    empty; wrapping it then gives one wrapper around the plain function. *)
Lemma wrap_after_unwrap (h h1 : Host) (a : nat) (name : string) (p : Patch) :
  get_slot h1 a name = unwrapped <$> get_slot h a name ->
  rewrapped h (shimmer_wrap (Some a) name p h1) a name p.
Proof.
  intros Hs. unfold rewrapped. destruct (get_slot h a name) as [f|]; simpl in Hs.
  - destruct (shimmer_wrap_spec h1 a name p _ Hs) as (Hs1 & _). by eexists.
  - by rewrite shimmer_wrap_absent.
Qed.

Lemma patch_spec (this : KafkaJsInstrumentation) (a : nat) (version : option string)
    (h : Host) :
  installed_here h a "producer" ->
  installed_here h a "consumer" ->
  let r := patch this (Some a) version h in
  rewrapped h r.2 a "producer" ProducerPatch /\
  rewrapped h r.2 a "consumer" ConsumerPatch /\
  (forall a' name, (a', name) <> (a, "producer") -> (a', name) <> (a, "consumer") ->
                   get_slot r.2 a' name = get_slot h a' name) /\
  installed_here r.2 a "producer" /\
  installed_here r.2 a "consumer".
Proof.
  intros Hp Hc. unfold patch. cbv zeta. cbn [snd].
  destruct (unpatch_spec a h Hp Hc) as (Hp1 & Hc1 & Ho1 & _).
  set (h1 := unpatch (Some a) h) in *.
  pose proof (wrap_after_unwrap h h1 a "producer" ProducerPatch Hp1) as Hp2.
  set (h2 := shimmer_wrap (Some a) "producer" ProducerPatch h1) in *.
  assert (Ho2 : forall a' name, (a', name) <> (a, "producer") ->
                                get_slot h2 a' name = get_slot h1 a' name).
  { intros a' name Hne. unfold h2.
    destruct (get_slot h1 a "producer") as [f|] eqn:Hf.
    - by apply (shimmer_wrap_spec h1 a "producer" ProducerPatch f Hf).
    - by rewrite shimmer_wrap_absent. }
  assert (Hc2 : get_slot h2 a "consumer" = unwrapped <$> get_slot h a "consumer").
  { rewrite Ho2 by congruence. exact Hc1. }
  pose proof (wrap_after_unwrap h h2 a "consumer" ConsumerPatch Hc2) as Hc3.
  set (h3 := shimmer_wrap (Some a) "consumer" ConsumerPatch h2) in *.
  assert (Ho3 : forall a' name, (a', name) <> (a, "consumer") ->
                                get_slot h3 a' name = get_slot h2 a' name).
  { intros a' name Hne. unfold h3.
    destruct (get_slot h2 a "consumer") as [f|] eqn:Hf.
    - by apply (shimmer_wrap_spec h2 a "consumer" ConsumerPatch f Hf).
    - by rewrite shimmer_wrap_absent. }
  assert (Hp3 : rewrapped h h3 a "producer" ProducerPatch).
  { unfold rewrapped, patched_once in *. rewrite Ho3 by congruence. exact Hp2. }
  split; [exact Hp3|]. split; [exact Hc3|]. split.
  { intros a' name Hne1 Hne2. rewrite Ho3, Ho2 by done. by apply Ho1. }
  split.
  - unfold installed_here, rewrapped in *.
    destruct (get_slot h a "producer") as [f|].
    + destruct Hp3 as [id Hid]. by rewrite Hid.
    + by rewrite Hp3.
  - unfold installed_here, rewrapped in *.
    destruct (get_slot h a "consumer") as [f|].
    + destruct Hc3 as [id Hid]. by rewrite Hid.
    + by rewrite Hc3.
Qed.

(** X13: patching the module wraps [Kafka.prototype.producer] and
    [Kafka.prototype.consumer] once each and records the module version on
    the instrumentation, keeping its configuration; patching a second time
    leaves one wrapper around the same functions, not two; unpatching
    afterwards puts the functions back that were there underneath; no other
    slot is touched by any of this.  A module without [Kafka] is left
    exactly as it is. *)
Theorem module_patch_and_unpatch (this : KafkaJsInstrumentation) (a : nat)
    (version : option string) (h : Host) :
  installed_here h a "producer" ->
  installed_here h a "consumer" ->
  let once := patch this (Some a) version h in
  let twice := patch once.1 (Some a) version once.2 in
  let undone := unpatch (Some a) once.2 in
  moduleVersion once.1 = version /\
  _config once.1 = _config this /\
  rewrapped h once.2 a "producer" ProducerPatch /\
  rewrapped h once.2 a "consumer" ConsumerPatch /\
  rewrapped h twice.2 a "producer" ProducerPatch /\
  rewrapped h twice.2 a "consumer" ConsumerPatch /\
  get_slot undone a "producer" = unwrapped <$> get_slot h a "producer" /\
  get_slot undone a "consumer" = unwrapped <$> get_slot h a "consumer" /\
  (forall a' name, (a', name) <> (a, "producer") -> (a', name) <> (a, "consumer") ->
                   get_slot once.2 a' name = get_slot h a' name /\
                   get_slot twice.2 a' name = get_slot h a' name /\
                   get_slot undone a' name = get_slot h a' name) /\
  (patch this None version h).2 = h /\
  unpatch None h = h.
Proof.
  intros Hp Hc once twice undone.
  destruct (patch_spec this a version h Hp Hc) as (Hp1 & Hc1 & Ho1 & Hhp & Hhc).
  fold once in Hp1, Hc1, Ho1, Hhp, Hhc.
  destruct (patch_spec once.1 a version once.2 Hhp Hhc)
    as (Hp2 & Hc2 & Ho2 & _ & _).
  fold twice in Hp2, Hc2, Ho2.
  destruct (unpatch_spec a once.2 Hhp Hhc) as (Hp3 & Hc3 & Ho3 & _).
  fold undone in Hp3, Hc3, Ho3.
  split; [done|]. split; [done|]. split; [exact Hp1|]. split; [exact Hc1|].
  split; [by apply (rewrapped_twice h once.2)|].
  split; [by apply (rewrapped_twice h once.2)|].
  split.
  { rewrite Hp3. unfold rewrapped in Hp1.
    destruct (get_slot h a "producer") as [f|].
    - destruct Hp1 as [id Hid]. by rewrite Hid.
    - by rewrite Hp1. }
  split.
  { rewrite Hc3. unfold rewrapped in Hc1.
    destruct (get_slot h a "consumer") as [f|].
    - destruct Hc1 as [id Hid]. by rewrite Hid.
    - by rewrite Hc1. }
  split; [|done].
  intros a' name Hne1 Hne2.
  split; [by apply Ho1|]. split.
  - rewrite Ho2 by done. by apply Ho1.
  - rewrite Ho3 by done. by apply Ho1.
Qed.

Lemma module_patch_and_unpatch_witness :
  let once := patch plain_instrumentation (Some 2) (Some "1.4.0") sample_host in
  let twice := patch once.1 (Some 2) (Some "1.4.0") once.2 in
  let undone := unpatch (Some 2) once.2 in
  moduleVersion once.1 = Some "1.4.0" /\
  _config once.1 = _config plain_instrumentation /\
  rewrapped sample_host once.2 2 "producer" ProducerPatch /\
  rewrapped sample_host once.2 2 "consumer" ConsumerPatch /\
  rewrapped sample_host twice.2 2 "producer" ProducerPatch /\
  rewrapped sample_host twice.2 2 "consumer" ConsumerPatch /\
  get_slot undone 2 "producer" = unwrapped <$> get_slot sample_host 2 "producer" /\
  get_slot undone 2 "consumer" = unwrapped <$> get_slot sample_host 2 "consumer" /\
  (forall a' name, (a', name) <> (2, "producer") -> (a', name) <> (2, "consumer") ->
                   get_slot once.2 a' name = get_slot sample_host a' name /\
                   get_slot twice.2 a' name = get_slot sample_host a' name /\
                   get_slot undone a' name = get_slot sample_host a' name) /\
  (patch plain_instrumentation None (Some "1.4.0") sample_host).2 = sample_host /\
  unpatch None sample_host = sample_host.
Proof.
  apply (module_patch_and_unpatch plain_instrumentation 2 (Some "1.4.0")
           sample_host); exact I.
Defined.

(** ** What a new span has received when it is handed out *)

Section Creation.
Variable propagator : TextMapPropagator.
Variable this : KafkaJsInstrumentation.

(** X14: when a span factory hands out its span, the span has received the
    module version attribute exactly when both an attribute name is
    configured and a module version was captured, and it has received it
    before the attributes the hook set, so that the hook has the last word;
    with no name, no version or no hook the corresponding calls are simply
    not made.  The consumer hook's calls are there only when a message was
    given. *)
Theorem creation_calls_in_order (topic : string) (w : World) :
  let version_calls :=
    match moduleVersionAttributeName (_config this), moduleVersion this with
    | Some name, Some version => [CallSetAttribute name (JsString version)]
    | _, _ => []
    end in
  let span := length (wSpans w) in
  (forall message,
     let r := _startProducerSpan propagator this topic message w in
     r.1 = Normal span /\
     span_calls r.2 span =
     version_calls ++
     match producerHook (_config this) with
     | Some hook =>
         map (fun kv => CallSetAttribute (fst kv) (snd kv))
           (hrAttributes (hook span topic message))
     | None => []
     end) /\
  (forall message operation context link,
     let r := _startConsumerSpan this topic message operation context link w in
     r.1 = Normal span /\
     span_calls r.2 span =
     version_calls ++
     match consumerHook (_config this), message with
     | Some hook, Some m =>
         map (fun kv => CallSetAttribute (fst kv) (snd kv))
           (hrAttributes (hook span topic m))
     | _, _ => []
     end).
Proof.
  intros version_calls span. unfold span. split.
  - intros message. rewrite startProducerSpan_spec.
    split; [done|].
    unfold span_calls. simpl. rewrite lookup_app_r by lia.
    rewrite Nat.sub_diag. simpl. unfold producer_hook_run.
    by destruct (producerHook (_config this)).
  - intros message operation context link.
    rewrite startConsumerSpan_spec.
    split; [done|].
    unfold span_calls. simpl. rewrite lookup_app_r by lia.
    rewrite Nat.sub_diag. simpl. unfold consumer_hook_run.
    by destruct (consumerHook (_config this)), message.
Qed.

(** X15: a message object listed twice in one [send] gets two spans but has
    one header object: the fields of the second span are written over
    those of the first, so what travels with the message is the context of
    the span created last. *)
Theorem same_message_twice (original : Original ProducerRecord) (topic : string)
    (message : nat) (w : World) :
  let record := {| prTopic := topic; prMessages := [message; message] |} in
  let r := _getProducerSendPatch propagator this original record w in
  let first := length (wSpans w) in
  let fields span := inject_fields propagator (trace_setSpan (wActive w) span) in
  let before :=
    match msgHeaders (wMessages w !!! message) with
    | Some h => wHeaders w !!! h
    | None => ∅
    end in
  new_spans w r.2 = [first; S first] /\
  exists h, msgHeaders (wMessages r.2 !!! message) = Some h /\
            wHeaders r.2 !!! h =
            set_fields (fields (S first)) (set_fields (fields first) before).
Proof.
  intros record r first fields before. unfold r.
  split; [by rewrite send_new_spans|].
  rewrite send_spec. exists (headers_ref w message).
  set (w1 := produce_step propagator this (topic, message) w).
  assert (Href : headers_ref w1 message = headers_ref w message).
  { unfold headers_ref at 1. unfold w1. simpl.
    by rewrite lookup_total_insert_eq. }
  assert (Hbefore : headers_before w1 message =
                    set_fields (fields first) before).
  { unfold headers_before at 1. unfold w1. simpl.
    rewrite !lookup_total_insert_eq. simpl.
    by rewrite lookup_total_insert_eq. }
  assert (Hlen : length (wSpans w1) = S first).
  { unfold w1. simpl. rewrite length_app. simpl. unfold first. lia. }
  assert (Hactive : wActive w1 = wActive w) by done.
  set (w2 := produce_step propagator this (topic, message) w1).
  change (msgHeaders (wMessages w2 !!! message) = Some (headers_ref w message) /\
          wHeaders w2 !!! headers_ref w message =
          set_fields (fields (S first)) (set_fields (fields first) before)).
  unfold w2, produce_step, producer_world. cbn [wMessages wHeaders fst snd].
  rewrite Href, Hbefore, Hlen, Hactive.
  rewrite !lookup_total_insert_eq. by split.
Qed.
End Creation.

(** ** Messages of their own *)

(** X16: in a [send] of pairwise distinct message objects that come without
    headers, every message ends up holding a header object, and that object
    holds exactly the fields of the context of the message's own span (the
    i-th message those of the i-th span started), written into an empty
    object: no message carries the context of another one's span. *)
Theorem distinct_messages_carry_their_own_span (propagator : TextMapPropagator)
    (this : KafkaJsInstrumentation) (original : Original ProducerRecord)
    (record : ProducerRecord) (w : World) :
  (forall m, m ∈ prMessages record -> msgHeaders (wMessages w !!! m) = None) ->
  NoDup (prMessages record) ->
  let r := _getProducerSendPatch propagator this original record w in
  forall i m, prMessages record !! i = Some m ->
    exists h,
      msgHeaders (wMessages r.2 !!! m) = Some h /\
      wHeaders r.2 !!! h =
        set_fields
          (inject_fields propagator
             (trace_setSpan (wActive w) (length (wSpans w) + i))) ∅.
Proof.
  intros Hnone Hdup r i m Hi. unfold r. rewrite send_spec.
  assert (Hpairs : (map (pair (prTopic record)) (prMessages record)).*2 =
                   prMessages record).
  { change (map ?f ?l) with (f <$> l). rewrite <- list_fmap_compose.
    apply list_fmap_id. }
  destruct (produce_steps_separate propagator this
              (map (pair (prTopic record)) (prMessages record)) w)
    with (i := i) (p := (prTopic record, m)) as (h & Hm & Hh).
  - unfold separate_messages. rewrite Hpairs. split; [done|]. split.
    + intros m' h Hm' Hh. by rewrite Hnone in Hh.
    + intros m1 m2 h Hm1 _ Hh. by rewrite Hnone in Hh.
  - change (map ?f ?l) with (f <$> l). by rewrite list_lookup_fmap, Hi.
  - exists h. split; [exact Hm|].
    unfold headers_before in Hh. cbn [snd] in Hh.
    rewrite Hnone in Hh by (by apply list_elem_of_lookup_2 in Hi).
    by apply lookup_total_correct.
Qed.

(** Two messages in one [send]: the first carries the context of span 0,
    the second that of span 1. *)
Lemma distinct_messages_carry_their_own_span_witness :
  let r := _getProducerSendPatch numbering_propagator plain_instrumentation
             (fun _ => Normal (ReturnsPromise (Fulfilled JsUndefined)))
             sample_record_of_two sample_outbox_bare in
  (exists h, msgHeaders (wMessages r.2 !!! 0) = Some h /\
             wHeaders r.2 !!! h = {[ "traceparent" := HvString "span-0" ]}) /\
  (exists h, msgHeaders (wMessages r.2 !!! 1) = Some h /\
             wHeaders r.2 !!! h = {[ "traceparent" := HvString "span-1" ]}).
Proof.
  assert (Hnone : forall m, m ∈ prMessages sample_record_of_two ->
            msgHeaders (wMessages sample_outbox_bare !!! m) = None).
  { intros m Hm. apply elem_of_cons in Hm as [->|Hm]; [reflexivity|].
    apply list_elem_of_singleton in Hm as ->. reflexivity. }
  assert (Hdup : NoDup (prMessages sample_record_of_two)).
  { apply NoDup_cons. split; [|apply NoDup_singleton].
    intros Hin. by apply list_elem_of_singleton in Hin. }
  split.
  - destruct (distinct_messages_carry_their_own_span numbering_propagator
                plain_instrumentation
                (fun _ => Normal (ReturnsPromise (Fulfilled JsUndefined)))
                sample_record_of_two sample_outbox_bare Hnone Hdup 0 0 eq_refl)
      as (h & Hm & Hh).
    exists h. split; [exact Hm|]. rewrite Hh. reflexivity.
  - destruct (distinct_messages_carry_their_own_span numbering_propagator
                plain_instrumentation
                (fun _ => Normal (ReturnsPromise (Fulfilled JsUndefined)))
                sample_record_of_two sample_outbox_bare Hnone Hdup 1 1 eq_refl)
      as (h & Hm & Hh).
    exists h. split; [exact Hm|]. rewrite Hh. reflexivity.
Defined.
